(** * Memo: wiki-link reference utilities ([src/utils/utils.ts])

    A shallow embedding of the string utilities, the reference token
    parser and the reference locator of the Memo editor extension,
    together with the properties of them that the specification states.

    JavaScript strings are modelled as lists of characters; the code
    tells apart only the two slashes, the dot, the bar and the letters
    of the extensions, so the alphabet of [ascii] is enough.  The regular
    expression literals of the source are kept as syntax trees and run by
    a small backtracking matcher, so that every definition below can be
    read against the source line it embeds. *)

From Stdlib Require Import Ascii String List Bool Arith Lia.
Import ListNotations.

Open Scope string_scope.
Open Scope list_scope.
Open Scope nat_scope.

(** ** Strings *)

Definition jsstring : Type := list ascii.

Definition js (s : string) : jsstring := list_ascii_of_string s.
Coercion js : string >-> jsstring.

Fixpoint jsstring_eqb (a b : jsstring) : bool :=
  match a, b with
  | [], [] => true
  | x :: a', y :: b' => Ascii.eqb x y && jsstring_eqb a' b'
  | _, _ => false
  end.

(** [startsWith w s]: the string [s] begins with the word [w]. *)
Fixpoint startsWith (w s : jsstring) : bool :=
  match w, s with
  | [], _ => true
  | x :: w', y :: s' => Ascii.eqb x y && startsWith w' s'
  | _ :: _, [] => false
  end.

(** [String.prototype.replace(searchValue, replaceValue)] with a string
    [searchValue]: the first occurrence of the literal [pat] is replaced,
    and nothing changes when there is none.  In the source the
    replacement is always the empty string, which holds no [$] pattern. *)
Fixpoint String_replace (s pat repl : jsstring) : jsstring :=
  if startsWith pat s then repl ++ skipn (length pat) s
  else match s with
       | [] => []
       | c :: s' => c :: String_replace s' pat repl
       end.

(** [String.prototype.split(separator)] for a separator of one character.
    The result is never empty: a string without separator is its own
    single segment. *)
Fixpoint String_split (s : jsstring) (sep : ascii) : list jsstring :=
  match s with
  | [] => [[]]
  | c :: s' =>
      if Ascii.eqb c sep then [] :: String_split s' sep
      else match String_split s' sep with
           | seg :: segs => (c :: seg) :: segs
           | [] => [[c]]
           end
  end.

(** ** Regular expressions

    The fragment of the ECMAScript pattern syntax that the literals of
    [utils.ts] use. *)

Inductive regex : Type :=
| Eps                       (* the empty pattern *)
| Chr (c : ascii)           (* a literal character, escaped or not *)
| Bol                       (* ^ *)
| Eol                       (* $ *)
| Seq (r1 r2 : regex)       (* r1 r2 *)
| Alt (r1 r2 : regex)       (* r1|r2 *)
| Plus (r : regex).         (* r+ (greedy) *)

(** A literal word. *)
Fixpoint lit (w : jsstring) : regex :=
  match w with
  | [] => Eps
  | c :: w' => Seq (Chr c) (lit w')
  end.

(** Greedy iteration of [step] zero or more times.  An iteration that
    consumes nothing is rejected, as the RepeatMatcher of ECMAScript
    does, and only the first iteration can start at position 0. *)
Fixpoint star (step : bool -> jsstring -> list nat) (fuel : nat)
         (at0 : bool) (s : jsstring) : list nat :=
  match fuel with
  | 0 => [0]
  | S fuel' =>
      flat_map (fun k =>
                  if k =? 0 then []
                  else map (Nat.add k) (star step fuel' false (skipn k s)))
               (step at0 s)
      ++ [0]
  end.

(** [ends r at0 s]: the lengths of the matches of [r] that start at the
    head of [s], in the order in which a backtracking matcher tries them
    (alternatives left to right, longer iterations first).  [at0] tells
    whether the head of [s] is position 0 of the whole input. *)
Fixpoint ends (r : regex) (at0 : bool) (s : jsstring) : list nat :=
  match r with
  | Eps => [0]
  | Chr c =>
      match s with
      | c' :: _ => if Ascii.eqb c c' then [1] else []
      | [] => []
      end
  | Bol => if at0 then [0] else []
  | Eol => match s with [] => [0] | _ :: _ => [] end
  | Seq r1 r2 =>
      flat_map (fun k =>
                  map (Nat.add k) (ends r2 (at0 && (k =? 0)) (skipn k s)))
               (ends r1 at0 s)
  | Alt r1 r2 => ends r1 at0 s ++ ends r2 at0 s
  | Plus r1 =>
      flat_map (fun k =>
                  map (Nat.add k)
                      (star (ends r1) (length s) (at0 && (k =? 0)) (skipn k s)))
               (ends r1 at0 s)
  end.

(** The leftmost match at or after the head of [s]: how many characters
    are skipped before it, and its length. *)
Fixpoint search (r : regex) (at0 : bool) (s : jsstring) : option (nat * nat) :=
  match ends r at0 s with
  | k :: _ => Some (0, k)
  | [] =>
      match s with
      | [] => None
      | _ :: s' =>
          match search r false s' with
          | Some (i, k) => Some (S i, k)
          | None => None
          end
      end
  end.

(** [RegExp.prototype.exec] of a pattern without the [g] flag, as a
    truth value. *)
Definition RegExp_test (r : regex) (s : jsstring) : bool :=
  match search r true s with Some _ => true | None => false end.

(** [String.prototype.replace] with a pattern without the [g] flag: the
    leftmost match is replaced. *)
Definition RegExp_replace (r : regex) (s repl : jsstring) : jsstring :=
  match search r true s with
  | Some (i, k) => firstn i s ++ repl ++ skipn (i + k) s
  | None => s
  end.

(** [String.prototype.replace] with a pattern with the [g] flag: every
    match is replaced, each search starting where the previous match
    ended (one character further after an empty match). *)
Fixpoint replace_loop (fuel : nat) (r : regex) (repl : jsstring)
         (at0 : bool) (s : jsstring) : jsstring :=
  match fuel with
  | 0 => s
  | S fuel' =>
      match search r at0 s with
      | None => s
      | Some (i, k) =>
          firstn i s ++ repl ++
          (if k =? 0 then
             match skipn i s with
             | [] => []
             | c :: s' => c :: replace_loop fuel' r repl false s'
             end
           else replace_loop fuel' r repl false (skipn (i + k) s))
      end
  end.

Definition RegExp_replace_g (r : regex) (s repl : jsstring) : jsstring :=
  replace_loop (S (length s)) r repl true s.

(** ** Path utilities *)

(** [/\.(md|png|jpg|jpeg|svg|gif)/] *)
Definition allExtsRegex : regex :=
  Seq (Chr ".")
      (Alt (lit "md") (Alt (lit "png") (Alt (lit "jpg")
      (Alt (lit "jpeg") (Alt (lit "svg") (lit "gif")))))).

(** [/\.md$/] *)
Definition markdownExtRegex : regex :=
  Seq (Chr ".") (Seq (lit "md") Eol).

(** [/\.(png|jpg|jpeg|svg|gif)/] *)
Definition imageExtsRegex : regex :=
  Seq (Chr ".")
      (Alt (lit "png") (Alt (lit "jpg")
      (Alt (lit "jpeg") (Alt (lit "svg") (lit "gif"))))).

Definition containsImageExt (path : jsstring) : bool :=
  RegExp_test imageExtsRegex path.

Definition containsMarkdownExt (path : jsstring) : bool :=
  RegExp_test markdownExtRegex path.

(** [value.replace(/^\/+|^\\+/g, '')] *)
Definition trimLeadingSlash (value : jsstring) : jsstring :=
  RegExp_replace_g
    (Alt (Seq Bol (Plus (Chr "/"))) (Seq Bol (Plus (Chr "\"))))
    value "".

(** [value.replace(/\/+|^\\+$/g, '')] *)
Definition trimTrailingSlash (value : jsstring) : jsstring :=
  RegExp_replace_g
    (Alt (Plus (Chr "/")) (Seq Bol (Seq (Plus (Chr "\")) Eol)))
    value "".

Definition trimSlashes (value : jsstring) : jsstring :=
  trimLeadingSlash (trimTrailingSlash value).

Definition isLongRef (path : jsstring) : bool :=
  1 <? length (String_split path "/").

(** ** Reference token parser *)

(** Modelled from the spec: the module [../types] that declares [RefT]
    is not among the sources; the specification gives it as
    [{ ref: string, label: string }]. *)
Record RefT : Type := mkRef { ref : jsstring; label : jsstring }.

Definition extractLongRef (basePathParam pathParam : jsstring)
           (preserveExtension : bool) : option RefT :=
  if RegExp_test allExtsRegex pathParam then
    (* the flag i of /\\/gi changes nothing: a backslash has no case *)
    let ref0 :=
      RegExp_replace_g (Chr "\") (String_replace pathParam basePathParam "") "/" in
    if preserveExtension then
      let parts := String_split (trimLeadingSlash ref0) "|" in
      Some {| ref := nth 0 parts []; label := nth 1 parts [] |}
    else
      let refNoExts := trimLeadingSlash (RegExp_replace allExtsRegex ref0 "") in
      let parts := String_split refNoExts "|" in
      Some {| ref := nth 0 parts []; label := nth 1 parts [] |}
  else None.

(** [path.basename] of Node, POSIX flavour: separators at the end are
    ignored and the part after the last remaining [/] is returned. *)
Fixpoint dropSlashes (s : jsstring) : jsstring :=
  match s with
  | c :: s' => if Ascii.eqb c "/" then dropSlashes s' else s
  | [] => []
  end.

Fixpoint upToSlash (s : jsstring) : jsstring :=
  match s with
  | c :: s' => if Ascii.eqb c "/" then [] else c :: upToSlash s'
  | [] => []
  end.

Definition posix_basename (p : jsstring) : jsstring :=
  rev (upToSlash (dropSlashes (rev p))).

Section ShortRef.

(** [path.basename] depends on the platform the editor runs on, so the
    parser takes it as a parameter. *)
Variable basename : jsstring -> jsstring.

Definition extractShortRef (pathParam : jsstring)
           (preserveExtension : bool) : option RefT :=
  if RegExp_test allExtsRegex pathParam then
    let ref0 := basename pathParam in
    if preserveExtension then
      let parts := String_split (trimLeadingSlash ref0) "|" in
      Some {| ref := nth 0 parts []; label := nth 1 parts [] |}
    else
      let refNoExts := trimLeadingSlash (RegExp_replace allExtsRegex ref0 "") in
      let parts := String_split refNoExts "|" in
      Some {| ref := nth 0 parts []; label := nth 1 parts [] |}
  else None.

End ShortRef.

(** ** Reference locator *)

(** Modelled from the spec: [../types] is not among the sources.  The
    specification gives [WorkspaceCache] as two ordered sequences of
    file URIs and [FoundRefT] as a location (file, text range) with the
    snippet [matchText].  A URI is kept as its [fsPath]. *)
Record WorkspaceCache : Type :=
  { imageUris : list jsstring; markdownUris : list jsstring }.

Record Position : Type := { line : nat; character : nat }.

Record Location : Type := { uri : jsstring; range : Position * Position }.

Record FoundRefT : Type := { location : Location; matchText : jsstring }.

(** What [RegExp.prototype.exec] answers: the index of the match and the
    first capture group, which is undefined when the group took no part
    in the match. *)
Record RegExpMatchArray : Type :=
  { index : nat; group1 : option jsstring }.

Inductive error : Type :=
| ReadError (fsPath : jsstring)        (* fs.readFileSync throws *)
| SyntaxError (source : jsstring)      (* new RegExp throws *)
| OpenError (fsPath : jsstring)        (* openTextDocument rejects *)
| TypeError.                           (* a property of undefined is read *)

(** The outcome of a call that may throw, or loop for longer than the
    fuel it was given. *)
Inductive outcome (A : Type) : Type :=
| Returns (a : A)
| Throws (e : error)
| OutOfFuel.

Arguments Returns {A} a.
Arguments Throws {A} e.
Arguments OutOfFuel {A}.

Definition bind {A B : Type} (m : outcome A) (k : A -> outcome B) : outcome B :=
  match m with
  | Returns a => k a
  | Throws e => Throws e
  | OutOfFuel => OutOfFuel
  end.

Notation "x <- m ;; k" := (bind m (fun x => k))
  (at level 61, m at next level, right associativity).

Definition orThrow {A : Type} (o : option A) (e : error) : outcome A :=
  match o with Some a => Returns a | None => Throws e end.

(** [excludePaths.includes(fsPath)] *)
Definition includes (l : list jsstring) (x : jsstring) : bool :=
  existsb (jsstring_eqb x) l.

(** The capabilities the locator consumes: reading a file, the regular
    expression engine, and the documents of the editor. *)
Record Capabilities : Type :=
  { (** [fs.readFileSync(fsPath).toString()]; [None] when the read throws. *)
    readFileSync : jsstring -> option jsstring;
    RegExp : Type;
    (** [new RegExp(source, 'gi')]; [None] when the source does not parse. *)
    RegExp_new : jsstring -> option RegExp;
    (** [pattern.exec(text)] read at a value of [pattern.lastIndex]: the
        match, if any, and the value [lastIndex] is left with. *)
    RegExp_exec : RegExp -> jsstring -> nat -> option RegExpMatchArray * nat;
    TextDocument : Type;
    (** [vscode.workspace.openTextDocument]; [None] when it rejects. *)
    openTextDocument : jsstring -> option TextDocument;
    positionAt : TextDocument -> nat -> Position;
    (** [document.lineAt(position).text] *)
    lineAt_text : TextDocument -> Position -> jsstring }.

(** The source of the pattern: the template literal of the call, two
    opening brackets, a group that holds [ref] and an optional label
    part, two closing brackets, with [ref] spliced in as it is. *)
Definition refRegExpSource (ref : jsstring) : jsstring :=
  js "\[\[(" ++ ref ++ js "(\|.*)?)\]\]".

Section Locator.

Variable env : Capabilities.

Fixpoint matchAll_loop (fuel : nat) (pattern : RegExp env) (text : jsstring)
         (lastIndex : nat) (out : list RegExpMatchArray)
  : outcome (list RegExpMatchArray) :=
  match fuel with
  | 0 => OutOfFuel
  | S fuel' =>
      match RegExp_exec env pattern text lastIndex with
      | (Some m, lastIndex') =>
          matchAll_loop fuel' pattern text lastIndex' (out ++ [m])
      | (None, _) => Returns out
      end
  end.

(** [pattern.lastIndex = 0], then [exec] until it answers null. *)
Definition matchAll (fuel : nat) (pattern : RegExp env) (text : jsstring)
  : outcome (list RegExpMatchArray) :=
  matchAll_loop fuel pattern text 0 [].

(** The callback of [matches.forEach]. *)
Definition pushMatch (fsPath : jsstring) (currentDocument : TextDocument env)
           (refs : list FoundRefT) (m : RegExpMatchArray)
  : outcome (list FoundRefT) :=
  let offset := index m + 2 in
  let refStart := positionAt env currentDocument offset in
  let lineText := lineAt_text env currentDocument refStart in
  let matchText := skipn (character refStart - 2) lineText in
  g1 <- orThrow (group1 m) TypeError ;;
  let refEnd := positionAt env currentDocument (offset + length g1) in
  Returns (refs ++ [ {| location := {| uri := fsPath; range := (refStart, refEnd) |};
                        matchText := matchText |} ]).

Fixpoint forEach (fsPath : jsstring) (currentDocument : TextDocument env)
         (matches : list RegExpMatchArray) (refs : list FoundRefT)
  : outcome (list FoundRefT) :=
  match matches with
  | [] => Returns refs
  | m :: rest =>
      refs' <- pushMatch fsPath currentDocument refs m ;;
      forEach fsPath currentDocument rest refs'
  end.

(** The body of the [for ... of] loop for one file that is not excluded. *)
Definition scanFile (fuel : nat) (ref fsPath : jsstring) (refs : list FoundRefT)
  : outcome (list FoundRefT) :=
  fileContent <- orThrow (readFileSync env fsPath) (ReadError fsPath) ;;
  pattern <- orThrow (RegExp_new env (refRegExpSource ref))
                     (SyntaxError (refRegExpSource ref)) ;;
  matches <- matchAll fuel pattern fileContent ;;
  match matches with
  | [] => Returns refs
  | _ :: _ =>
      currentDocument <- orThrow (openTextDocument env fsPath) (OpenError fsPath) ;;
      forEach fsPath currentDocument matches refs
  end.

Fixpoint scan (fuel : nat) (ref : jsstring) (excludePaths uris : list jsstring)
         (refs : list FoundRefT) : outcome (list FoundRefT) :=
  match uris with
  | [] => Returns refs
  | fsPath :: rest =>
      if includes excludePaths fsPath then scan fuel ref excludePaths rest refs
      else
        refs' <- scanFile fuel ref fsPath refs ;;
        scan fuel ref excludePaths rest refs'
  end.

(** [findReferences(ref, excludePaths)] run on the workspace cache
    [workspaceCache]; [fuel] bounds the iterations of each [matchAll]. *)
Definition findReferences (fuel : nat) (workspaceCache : WorkspaceCache)
           (ref : jsstring) (excludePaths : list jsstring)
  : outcome (list FoundRefT) :=
  scan fuel ref excludePaths (markdownUris workspaceCache) [].

End Locator.

(** ** A fixture workspace

    Three cached markdown files: [note] holds two references to
    [target], [other] holds none, and [gone] was deleted after the cache
    was built.  The engine is tabulated on the one pattern and the texts
    of the fixture; its documents are one line long, so that an offset
    is the character of a position on line 0. *)
Module Fixture.

Definition note : jsstring := "/ws/note.md".
Definition other : jsstring := "/ws/other.md".

Definition noteText : jsstring := "See [[target]] and [[target|Alt]] here.".
Definition otherText : jsstring := "Nothing to see.".

Definition readFile (fsPath : jsstring) : option jsstring :=
  if jsstring_eqb fsPath note then Some noteText
  else if jsstring_eqb fsPath other then Some otherText
  else None.

(** The only pattern of the fixture is the one built from [target]. *)
Definition pattern : Type := unit.

Definition newRegExp (source : jsstring) : option pattern :=
  if jsstring_eqb source "\[\[(target(\|.*)?)\]\]" then Some tt else None.

(** In [noteText] the pattern matches at index 4, up to index 14, and
    at index 19, up to index 33; it matches nowhere in [otherText]. *)
Definition exec (_ : pattern) (text : jsstring) (lastIndex : nat)
  : option RegExpMatchArray * nat :=
  if jsstring_eqb text noteText then
    if lastIndex <=? 4 then
      (Some {| index := 4; group1 := Some (js "target") |}, 14)
    else if lastIndex <=? 19 then
      (Some {| index := 19; group1 := Some (js "target|Alt") |}, 33)
    else (None, 0)
  else (None, 0).

Definition document : Type := jsstring.
Definition openDocument (fsPath : jsstring) : option document :=
  readFile fsPath.
Definition positionOf (_ : document) (offset : nat) : Position :=
  {| line := 0; character := offset |}.
Definition lineOf (doc : document) (_ : Position) : jsstring := doc.

Definition workspaceCache : WorkspaceCache :=
  {| imageUris := []; markdownUris := [note; other] |}.


Definition env : Capabilities :=
  {| readFileSync := readFile;
     RegExp := pattern;
     RegExp_new := newRegExp;
     RegExp_exec := exec;
     TextDocument := document;
     openTextDocument := openDocument;
     positionAt := positionOf;
     lineAt_text := lineOf |}.

End Fixture.

(** ** Vocabulary of the specification *)

Definition imageExts : list jsstring :=
  map js [".png"; ".jpg"; ".jpeg"; ".svg"; ".gif"].

Definition targetExts : list jsstring := js ".md" :: imageExts.

(** [s] ends with one of the words of [exts]. *)
Definition endsWithOneOf (exts : list jsstring) (s : jsstring) : Prop :=
  exists pre ext, In ext exts /\ s = pre ++ ext.

(** One of the words of [exts] occurs somewhere in [s]. *)
Definition containsOneOf (exts : list jsstring) (s : jsstring) : Prop :=
  exists pre ext post, In ext exts /\ s = pre ++ ext ++ post.

(** [ref] and [label] cut [s] at its first [|]: [ref] is what stands
    before it, [label] is all that follows it. *)
Definition splitsOnFirstPipe (s ref label : jsstring) : Prop :=
  (~ In "|"%char s /\ ref = s /\ label = [])
  \/ (~ In "|"%char ref /\ s = ref ++ "|"%char :: label).

(** [ref] and [label] are the first two segments of [s] between [|]
    characters: [label] stops at the second [|], and what follows that
    one is dropped. *)
Definition firstTwoSegments (s ref label : jsstring) : Prop :=
  (~ In "|"%char s /\ ref = s /\ label = [])
  \/ (~ In "|"%char ref /\ ~ In "|"%char label /\
      (s = ref ++ "|"%char :: label
       \/ exists rest, s = ref ++ "|"%char :: label ++ "|"%char :: rest)).

(** The string that the parser splits: the leading slash trimmed, and
    the first extension removed unless it is to be preserved. *)
Definition processed (preserveExtension : bool) (ref0 : jsstring) : jsstring :=
  trimLeadingSlash
    (if preserveExtension then ref0 else RegExp_replace allExtsRegex ref0 "").

Definition processedLong (basePathParam pathParam : jsstring)
           (preserveExtension : bool) : jsstring :=
  processed preserveExtension
    (RegExp_replace_g (Chr "\") (String_replace pathParam basePathParam "") "/").

Definition processedShort (basename : jsstring -> jsstring)
           (pathParam : jsstring) (preserveExtension : bool) : jsstring :=
  processed preserveExtension (basename pathParam).

(** The first occurrence of [base] in [pre ++ base ++ post] is the one
    after [pre]. *)
Definition firstOccurrence (base pre post : jsstring) : Prop :=
  forall pre' post',
    pre ++ base ++ post = pre' ++ base ++ post' -> length pre <= length pre'.

(** The length of the run of [c] at the head of [s]. *)
Fixpoint run (c : ascii) (s : jsstring) : nat :=
  match s with
  | c' :: s' => if Ascii.eqb c c' then S (run c s') else 0
  | [] => 0
  end.

(** [n; n-1; ...; 1] *)
Fixpoint downto (n : nat) : list nat :=
  match n with
  | 0 => []
  | S m => S m :: downto m
  end.

(** [s] without its [/] characters. *)
Definition noSlash (s : jsstring) : jsstring :=
  filter (fun c => negb (Ascii.eqb "/" c)) s.

(** ** Reference under the cursor *)

(** [refPattern]: two opening brackets, one or more characters that are
    not brackets, two closing brackets. *)
Definition refPattern : jsstring := "(\[\[)([^\[\]]+?)(\]\])".

(** What [getReferenceAtPosition] asks of a [vscode.TextDocument]: the
    range of the match of a pattern around a position, if there is one,
    and the text of a range. *)
Record TextDocumentView : Type :=
  { getWordRangeAtPosition : Position -> jsstring -> option (Position * Position);
    getText : Position * Position -> jsstring }.

(** The object returned is kept as the pair of its fields [ref] and
    [range]. *)
Definition getReferenceAtPosition (document : TextDocumentView)
           (position : Position) : option (jsstring * (Position * Position)) :=
  match getWordRangeAtPosition document position refPattern with
  | None => None
  | Some range0 =>
      let parts :=
        String_split
          (String_replace
             (String_replace
                (String_replace (getText document range0) "![[" "")
                "[[" "")
             "]]" "")
          "|" in
      Some (nth 0 parts [], range0)
  end.

(** ** Further fixtures *)

(** A document whose only line is [See [[target|Alt]] here.]: the
    reference spans the characters 4 to 18 of line 0. *)
Module Cursor.

Definition linkRange : Position * Position :=
  ({| line := 0; character := 4 |}, {| line := 0; character := 18 |}).

Definition document : TextDocumentView :=
  {| getWordRangeAtPosition := fun position _ =>
       if (line position =? 0) && (4 <=? character position)
          && (character position <=? 18)
       then Some linkRange else None;
     getText := fun _ => js "[[target|Alt]]" |}.

End Cursor.

(** References that are not escaped before they are spliced into the
    pattern.  With [)|()|(] the pattern has an empty alternative: on the
    text [abc] it matches the empty string wherever it is asked to,
    leaves [lastIndex] where it was, and its first group takes no part.
    With [x)|(y] the second alternative matches the whole of the text
    [y]]] at index 0, and the first group takes no part either.  Any
    other source, among them the one built from an opening parenthesis
    alone, is answered as one that does not parse. *)
Module OddRefs.

Definition emptyRef : jsstring := ")|()|(".
Definition splitRef : jsstring := "x)|(y".
Definition badRef : jsstring := "(".

Definition file : jsstring := "/ws/odd.md".
Definition fileText : jsstring := "abc".
Definition brackets : jsstring := "/ws/brackets.md".
Definition bracketsText : jsstring := "y]]".

Inductive pattern : Type := EmptyAlternative | SplitGroup.

Definition newRegExp (source : jsstring) : option pattern :=
  if jsstring_eqb source (refRegExpSource emptyRef) then Some EmptyAlternative
  else if jsstring_eqb source (refRegExpSource splitRef) then Some SplitGroup
  else None.

Definition exec (p : pattern) (text : jsstring) (lastIndex : nat)
  : option RegExpMatchArray * nat :=
  match p with
  | EmptyAlternative =>
      if jsstring_eqb text fileText && (lastIndex <=? 3)
      then (Some {| index := lastIndex; group1 := None |}, lastIndex)
      else (None, 0)
  | SplitGroup =>
      if jsstring_eqb text bracketsText && (lastIndex =? 0)
      then (Some {| index := 0; group1 := None |}, 3)
      else (None, 0)
  end.

Definition readFile (fsPath : jsstring) : option jsstring :=
  if jsstring_eqb fsPath file then Some fileText
  else if jsstring_eqb fsPath brackets then Some bracketsText
  else None.

Definition env : Capabilities :=
  {| readFileSync := readFile;
     RegExp := pattern;
     RegExp_new := newRegExp;
     RegExp_exec := exec;
     TextDocument := jsstring;
     openTextDocument := readFile;
     positionAt := fun _ offset => {| line := 0; character := offset |};
     lineAt_text := fun doc _ => doc |}.

End OddRefs.

(** * Properties *)

(** ** Strings *)

Lemma jsstring_eqb_eq (a b : jsstring) : jsstring_eqb a b = true <-> a = b.
Proof.
  revert b; induction a as [|x a IH]; intros [|y b]; simpl; split;
    try congruence; try reflexivity.
  - intros H. apply andb_true_iff in H as [Hx Hab].
    apply Ascii.eqb_eq in Hx. apply IH in Hab. congruence.
  - intros H. injection H as -> ->.
    apply andb_true_iff; split; [apply Ascii.eqb_refl | now apply IH].
Qed.

Lemma includes_In (l : list jsstring) (x : jsstring) :
  includes l x = true <-> In x l.
Proof.
  unfold includes. rewrite existsb_exists. split.
  - intros (y & Hy & E). apply jsstring_eqb_eq in E. now subst.
  - intros H. exists x. split; [assumption | now apply jsstring_eqb_eq].
Qed.

Lemma startsWith_app (w s : jsstring) : startsWith w (w ++ s) = true.
Proof.
  induction w as [|c w IH]; simpl; [reflexivity|].
  now rewrite Ascii.eqb_refl.
Qed.

Lemma startsWith_iff (w s : jsstring) :
  startsWith w s = true <-> exists t, s = w ++ t.
Proof.
  split.
  - revert s; induction w as [|c w IH]; intros s H; simpl in *.
    + now exists s.
    + destruct s as [|c' s]; [discriminate|].
      apply andb_true_iff in H as [Hc Hw].
      apply Ascii.eqb_eq in Hc. subst c'.
      destruct (IH _ Hw) as [t ->]. now exists t.
  - intros [t ->]. apply startsWith_app.
Qed.

(** ** The matcher *)

Lemma run_le (c : ascii) (s : jsstring) : run c s <= length s.
Proof.
  induction s as [|c' s IH]; simpl; [lia|].
  destruct (Ascii.eqb c c'); lia.
Qed.

Lemma map_S_downto (m : nat) : map S (downto m) ++ [1] = downto (S m).
Proof.
  induction m as [|m IH]; [reflexivity|].
  simpl. f_equal. exact IH.
Qed.

Lemma star_Chr (c : ascii) (fuel : nat) :
  forall (at0 : bool) (s : jsstring),
    run c s <= fuel ->
    star (ends (Chr c)) fuel at0 s = downto (run c s) ++ [0].
Proof.
  induction fuel as [|fuel IH]; intros at0 s Hrun.
  - simpl. replace (run c s) with 0 by lia. reflexivity.
  - destruct s as [|c' s]; [reflexivity|].
    simpl in *. destruct (Ascii.eqb c c'); [|reflexivity].
    simpl. rewrite IH by lia. rewrite app_nil_r, map_app. simpl.
    rewrite <- app_assoc. simpl.
    change (S (run c s) :: downto (run c s) ++ [0])
      with (downto (S (run c s)) ++ [0]).
    rewrite <- map_S_downto, <- app_assoc. reflexivity.
Qed.

Lemma ends_Chr_cons (c : ascii) (at0 : bool) (c' : ascii) (s : jsstring) :
  ends (Chr c) at0 (c' :: s) = if Ascii.eqb c c' then [1] else [].
Proof. reflexivity. Qed.

Lemma ends_Plus_Chr (c : ascii) (at0 : bool) (s : jsstring) :
  ends (Plus (Chr c)) at0 s = downto (run c s).
Proof.
  change (ends (Plus (Chr c)) at0 s)
    with (flat_map (fun k => map (Nat.add k)
                                (star (ends (Chr c)) (length s)
                                      (at0 && (k =? 0)) (skipn k s)))
                   (ends (Chr c) at0 s)).
  destruct s as [|c' s]; [reflexivity|].
  rewrite ends_Chr_cons. cbn [run]. destruct (Ascii.eqb c c'); [|reflexivity].
  cbn [flat_map skipn]. rewrite app_nil_r.
  rewrite star_Chr by (pose proof (run_le c s); cbn [length]; lia).
  rewrite map_app. apply map_S_downto.
Qed.

Lemma ends_Alt (r1 r2 : regex) (at0 : bool) (s : jsstring) :
  ends (Alt r1 r2) at0 s = ends r1 at0 s ++ ends r2 at0 s.
Proof. reflexivity. Qed.

Lemma map_add_0 (l : list nat) : map (Nat.add 0) l = l.
Proof. apply map_id. Qed.

Lemma ends_Seq_Bol (r : regex) (at0 : bool) (s : jsstring) :
  ends (Seq Bol r) at0 s = if at0 then ends r true s else [].
Proof.
  destruct at0; simpl; [|reflexivity].
  now rewrite app_nil_r, map_add_0.
Qed.

Lemma ends_Seq_Chr (c : ascii) (r : regex) (at0 : bool) (s : jsstring) :
  ends (Seq (Chr c) r) at0 s =
  match s with
  | c' :: s' => if Ascii.eqb c c' then map S (ends r false s') else []
  | [] => []
  end.
Proof.
  destruct s as [|c' s]; [reflexivity|].
  simpl. destruct (Ascii.eqb c c'); [|reflexivity].
  simpl. rewrite app_nil_r, andb_false_r. reflexivity.
Qed.

Lemma ends_lit (w : jsstring) :
  forall (at0 : bool) (s : jsstring),
    ends (lit w) at0 s = if startsWith w s then [length w] else [].
Proof.
  induction w as [|c w IH]; intros at0 s; [reflexivity|].
  change (lit (c :: w)) with (Seq (Chr c) (lit w)).
  rewrite ends_Seq_Chr. destruct s as [|c' s]; [reflexivity|].
  simpl. destruct (Ascii.eqb c c'); [|reflexivity].
  rewrite IH. simpl. now destruct (startsWith w s).
Qed.

(** [Plus (Chr c)] followed by [Eol]: the run has to reach the end. *)
Lemma flat_map_downto_nil (g : nat -> list nat) (n : nat) :
  (forall k, 1 <= k <= n -> g k = []) -> flat_map g (downto n) = [].
Proof.
  induction n as [|n IH]; intros H; [reflexivity|].
  simpl. rewrite (H (S n)) by lia. apply IH. intros k Hk. apply H. lia.
Qed.

Lemma ends_Plus_Chr_Eol (c : ascii) (at0 : bool) (s : jsstring) :
  ends (Seq (Plus (Chr c)) Eol) at0 s =
  if (0 <? length s) && (run c s =? length s) then [length s] else [].
Proof.
  change (ends (Seq (Plus (Chr c)) Eol) at0 s)
    with (flat_map (fun k => map (Nat.add k)
                                (ends Eol (at0 && (k =? 0)) (skipn k s)))
                   (ends (Plus (Chr c)) at0 s)).
  rewrite ends_Plus_Chr.
  pose proof (run_le c s) as Hle.
  assert (Hlt : forall k, k < length s ->
                          map (Nat.add k) (ends Eol (at0 && (k =? 0)) (skipn k s)) = []).
  { intros k Hk. simpl. destruct (skipn k s) eqn:E; [|reflexivity].
    apply (f_equal (@length ascii)) in E. rewrite length_skipn in E.
    simpl in E. lia. }
  destruct (0 <? length s) eqn:Hpos; simpl.
  - apply Nat.ltb_lt in Hpos.
    destruct (run c s =? length s) eqn:Hall.
    + apply Nat.eqb_eq in Hall. rewrite Hall.
      destruct (length s) as [|n] eqn:Hn; [lia|].
      cbn [downto flat_map].
      rewrite flat_map_downto_nil by (intros k Hk; apply Hlt; lia).
      rewrite app_nil_r.
      assert (E : skipn (S n) s = []) by (rewrite <- Hn; apply skipn_all).
      rewrite E. cbn. now rewrite Nat.add_0_r.
    + apply Nat.eqb_neq in Hall. apply flat_map_downto_nil.
      intros k Hk. apply Hlt. lia.
  - apply Nat.ltb_ge in Hpos. replace (run c s) with 0 by lia. reflexivity.
Qed.

(** ** Global replacement *)

Lemma replace_loop_none (fuel : nat) (r : regex) (repl : jsstring)
      (at0 : bool) (s : jsstring) :
  search r at0 s = None -> replace_loop fuel r repl at0 s = s.
Proof.
  intros H. destruct fuel as [|fuel]; [reflexivity|].
  cbn [replace_loop]. now rewrite H.
Qed.

(** A character at which no match starts is copied, and the loop goes on
    behind it. *)
Lemma replace_loop_skip (fuel : nat) (r : regex) (repl : jsstring)
      (at0 : bool) (c : ascii) (s : jsstring) :
  ends r at0 (c :: s) = [] ->
  replace_loop (S fuel) r repl at0 (c :: s)
  = c :: replace_loop (S fuel) r repl false s.
Proof.
  intros H. cbn [replace_loop search]. rewrite H.
  destruct (search r false s) as [[i k]|]; reflexivity.
Qed.

(** The normalisation of separators in [extractLongRef] turns every
    backslash into a [/] and changes nothing else. *)
Lemma replace_loop_backslash (s : jsstring) :
  forall (fuel : nat) (at0 : bool),
    length s < fuel ->
    replace_loop fuel (Chr "\") "/" at0 s
    = map (fun c => if Ascii.eqb "\" c then "/"%char else c) s.
Proof.
  induction s as [|c s IH]; intros fuel at0 Hfuel;
    (destruct fuel as [|fuel]; [lia|]).
  - reflexivity.
  - cbn [length] in Hfuel. cbn [map].
    destruct (Ascii.eqb "\" c) eqn:Hc.
    + cbn [replace_loop search ends]. rewrite Hc.
      cbn [firstn Nat.eqb Nat.add skipn app js list_ascii_of_string].
      now rewrite IH by lia.
    + rewrite replace_loop_skip by (cbn [ends]; now rewrite Hc).
      now rewrite IH by lia.
Qed.

Lemma backslashes_to_slashes (s : jsstring) :
  RegExp_replace_g (Chr "\") s "/"
  = map (fun c => if Ascii.eqb "\" c then "/"%char else c) s.
Proof. apply replace_loop_backslash. lia. Qed.

(** ** Slash trimming *)

Lemma ends_leading (at0 : bool) (s : jsstring) :
  ends (Alt (Seq Bol (Plus (Chr "/"))) (Seq Bol (Plus (Chr "\")))) at0 s
  = if at0 then downto (run "/" s) ++ downto (run "\" s) else [].
Proof.
  rewrite ends_Alt, !ends_Seq_Bol, !ends_Plus_Chr. now destruct at0.
Qed.

Lemma search_leading_false (s : jsstring) :
  search (Alt (Seq Bol (Plus (Chr "/"))) (Seq Bol (Plus (Chr "\")))) false s
  = None.
Proof.
  induction s as [|c s IH]; cbn [search]; rewrite ends_leading.
  - reflexivity.
  - now rewrite IH.
Qed.

(** [trimLeadingSlash] removes the run of [/] the string starts with,
    or else the run of backslashes it starts with. *)
Lemma trimLeadingSlash_spec (s : jsstring) :
  trimLeadingSlash s =
  match run "/" s with
  | 0 => skipn (run "\" s) s
  | S n => skipn (S n) s
  end.
Proof.
  unfold trimLeadingSlash, RegExp_replace_g. cbn [replace_loop].
  destruct s as [|c s].
  - cbn [search]. rewrite ends_leading. reflexivity.
  - cbn [search]. rewrite ends_leading, search_leading_false.
    destruct (run "/" (c :: s)) as [|n].
    + destruct (run "\" (c :: s)) as [|m]; [reflexivity|].
      cbn [downto app firstn Nat.eqb Nat.add].
      now rewrite replace_loop_none by apply search_leading_false.
    + cbn [downto app firstn Nat.eqb Nat.add].
      now rewrite replace_loop_none by apply search_leading_false.
Qed.

Lemma noSlash_skipn_run (s : jsstring) :
  noSlash (skipn (run "/" s) s) = noSlash s.
Proof.
  induction s as [|c s IH]; [reflexivity|].
  cbn [run]. destruct (Ascii.eqb "/" c) eqn:E; [|reflexivity].
  cbn [skipn]. rewrite IH. unfold noSlash. cbn [filter]. now rewrite E.
Qed.

Lemma ends_trailing (at0 : bool) (s : jsstring) :
  ends (Alt (Plus (Chr "/")) (Seq Bol (Seq (Plus (Chr "\")) Eol))) at0 s
  = downto (run "/" s)
    ++ (if at0 && ((0 <? length s) && (run "\" s =? length s))
        then [length s] else []).
Proof.
  rewrite ends_Alt, ends_Seq_Bol, ends_Plus_Chr, ends_Plus_Chr_Eol.
  now destruct at0.
Qed.

Lemma replace_loop_trailing_false (n : nat) :
  forall (s : jsstring) (fuel : nat),
    length s <= n -> length s < fuel ->
    replace_loop fuel (Alt (Plus (Chr "/")) (Seq Bol (Seq (Plus (Chr "\")) Eol)))
                 [] false s
    = noSlash s.
Proof.
  induction n as [|n IH]; intros s fuel Hn Hfuel.
  - destruct s; [|simpl in Hn; lia].
    destruct fuel; [lia|]. cbn [replace_loop search]. now rewrite ends_trailing.
  - destruct fuel as [|fuel]; [lia|].
    destruct s as [|c s].
    + cbn [replace_loop search]. now rewrite ends_trailing.
    + cbn [length] in *. destruct (Ascii.eqb "/" c) eqn:Hc.
      * cbn [replace_loop search]. rewrite ends_trailing. cbn [run].
        rewrite Hc. cbn [downto app andb firstn Nat.eqb Nat.add skipn].
        rewrite IH by (rewrite length_skipn; lia).
        rewrite noSlash_skipn_run. unfold noSlash. cbn [filter].
        now rewrite Hc.
      * rewrite replace_loop_skip.
        -- rewrite IH by lia. unfold noSlash. cbn [filter]. now rewrite Hc.
        -- rewrite ends_trailing. cbn [run]. now rewrite Hc.
Qed.

(** [trimTrailingSlash] removes every [/] of the string, wherever it
    stands; a string made of backslashes only becomes empty. *)
Lemma trimTrailingSlash_spec (s : jsstring) :
  trimTrailingSlash s =
  if (0 <? length s) && (run "\" s =? length s) then [] else noSlash s.
Proof.
  unfold trimTrailingSlash, RegExp_replace_g.
  destruct s as [|c s].
  - cbn [replace_loop search length]. now rewrite ends_trailing.
  - destruct (Ascii.eqb "/" c) eqn:Hc.
    + assert (Hb : Ascii.eqb "\" c = false).
      { apply Ascii.eqb_eq in Hc. now subst c. }
      cbn [replace_loop search]. rewrite ends_trailing. cbn [run].
      rewrite Hc, Hb. cbn [downto app andb firstn Nat.eqb Nat.add skipn].
      rewrite (replace_loop_trailing_false (length s))
        by (rewrite length_skipn; cbn [length]; lia).
      rewrite noSlash_skipn_run.
      replace ((0 <? length (c :: s)) && (0 =? length (c :: s))) with false
        by (cbn [length]; reflexivity).
      unfold noSlash. cbn [filter]. now rewrite Hc.
    + destruct ((0 <? length (c :: s)) && (run "\" (c :: s) =? length (c :: s)))
        eqn:Hall.
      * cbn [replace_loop search]. rewrite ends_trailing. cbn [run].
        rewrite Hc. cbn [run] in Hall. cbn [andb]. rewrite Hall.
        cbn [downto app firstn Nat.eqb Nat.add length].
        change (skipn (S (length s)) (c :: s)) with (skipn (length s) s).
        rewrite skipn_all.
        now rewrite (replace_loop_trailing_false 0) by (cbn [length]; lia).
      * rewrite replace_loop_skip.
        -- rewrite (replace_loop_trailing_false (length s))
             by (cbn [length]; lia).
           unfold noSlash. cbn [filter]. now rewrite Hc.
        -- rewrite ends_trailing. cbn [andb]. rewrite Hall. cbn [run].
           now rewrite Hc.
Qed.

Lemma noSlash_run (s : jsstring) : run "/" (noSlash s) = 0.
Proof.
  induction s as [|c s IH]; [reflexivity|].
  unfold noSlash in *. cbn [filter].
  destruct (Ascii.eqb "/" c) eqn:E; cbn [negb]; [exact IH|].
  cbn [run]. now rewrite E.
Qed.

Lemma noSlash_fixed (s : jsstring) :
  Forall (fun c => Ascii.eqb "/" c = false) s -> noSlash s = s.
Proof.
  induction 1 as [|c s Hc _ IH]; [reflexivity|].
  unfold noSlash in *. cbn [filter]. rewrite Hc. cbn [negb]. now rewrite IH.
Qed.

Lemma noSlash_Forall (s : jsstring) :
  Forall (fun c => Ascii.eqb "/" c = false) (noSlash s).
Proof.
  induction s as [|c s IH]; [constructor|].
  unfold noSlash in *. cbn [filter].
  destruct (Ascii.eqb "/" c) eqn:E; cbn [negb]; [exact IH|].
  now constructor.
Qed.

Lemma Forall_skipn {A : Type} (P : A -> Prop) (n : nat) (l : list A) :
  Forall P l -> Forall P (skipn n l).
Proof.
  revert l; induction n as [|n IH]; intros l H; [exact H|].
  destruct H; [constructor|]. now apply IH.
Qed.

Lemma run_skipn_run (c : ascii) (s : jsstring) :
  run c (skipn (run c s) s) = 0.
Proof.
  induction s as [|c' s IH]; [reflexivity|].
  cbn [run]. destruct (Ascii.eqb c c') eqn:E; [exact IH|].
  cbn [skipn run]. now rewrite E.
Qed.

Lemma run_slashFree (s : jsstring) :
  Forall (fun c => Ascii.eqb "/" c = false) s -> run "/" s = 0.
Proof.
  destruct 1 as [|c s Hc _]; [reflexivity|]. cbn [run]. now rewrite Hc.
Qed.

(** What [trimTrailingSlash] returns holds no [/]. *)
Lemma trimTrailingSlash_slashFree (s : jsstring) :
  Forall (fun c => Ascii.eqb "/" c = false) (trimTrailingSlash s).
Proof.
  rewrite trimTrailingSlash_spec.
  destruct ((0 <? length s) && (run "\" s =? length s));
    [constructor | apply noSlash_Forall].
Qed.

(** What [trimSlashes] returns holds no [/] and starts with no
    backslash. *)
Lemma trimSlashes_normal (x : jsstring) :
  Forall (fun c => Ascii.eqb "/" c = false) (trimSlashes x)
  /\ run "\" (trimSlashes x) = 0.
Proof.
  unfold trimSlashes. rewrite trimLeadingSlash_spec.
  pose proof (trimTrailingSlash_slashFree x) as Hfree.
  rewrite (run_slashFree _ Hfree). split.
  - now apply Forall_skipn.
  - apply run_skipn_run.
Qed.

(** Such a string is left as it is. *)
Lemma trimSlashes_fixed (r : jsstring) :
  Forall (fun c => Ascii.eqb "/" c = false) r -> run "\" r = 0 ->
  trimSlashes r = r.
Proof.
  intros Hfree Hrun. unfold trimSlashes.
  rewrite trimTrailingSlash_spec, Hrun.
  replace ((0 <? length r) && (0 =? length r)) with false
    by (now destruct r).
  rewrite (noSlash_fixed _ Hfree), trimLeadingSlash_spec.
  now rewrite (run_slashFree _ Hfree), Hrun.
Qed.

(** C9: [trimSlashes] is idempotent: for every string [x],
    [trimSlashes (trimSlashes x)] equals [trimSlashes x]. *)
Theorem trimSlashes_idempotent (x : jsstring) :
  trimSlashes (trimSlashes x) = trimSlashes x.
Proof.
  destruct (trimSlashes_normal x) as [Hfree Hrun].
  now apply trimSlashes_fixed.
Qed.

(** C2: on the input of the specification, ['/foo/bar/'], the code
    returns ['foobar']: the separator between [foo] and [bar] is removed
    with the leading and the trailing one, where the specification
    promises ['foo/bar']. *)
Theorem trimSlashes_foo_bar :
  trimSlashes "/foo/bar/" = "foobar"
  /\ trimTrailingSlash "/foo/bar/" = "foobar"
  /\ trimLeadingSlash "/foo/bar/" = "foo/bar/".
Proof. repeat split; reflexivity. Qed.

(** ** Searching *)

Lemma search_Some_iff (r : regex) :
  (forall at0 s, ends r at0 s = ends r false s) ->
  forall (s : jsstring) (at0 : bool),
    search r at0 s <> None <->
    exists pre post, s = pre ++ post /\ ends r false post <> [].
Proof.
  intros Hr s. induction s as [|c s IH]; intros at0; cbn [search].
  - rewrite Hr. destruct (ends r false []) eqn:E; split.
    + congruence.
    + intros (pre & post & Hs & Hne). symmetry in Hs.
      apply app_eq_nil in Hs as [_ ->]. congruence.
    + intros _. exists [], []. split; [reflexivity | congruence].
    + congruence.
  - rewrite Hr. destruct (ends r false (c :: s)) eqn:E; split.
    + intros H. destruct (search r false s) as [[i k]|] eqn:Es; [|congruence].
      assert (Hs : search r false s <> None) by congruence.
      apply IH in Hs as (pre & post & -> & Hne).
      now exists (c :: pre), post.
    + intros (pre & post & Hs & Hne). destruct pre as [|c' pre].
      * simpl in Hs. subst post. congruence.
      * injection Hs as <- ->.
        assert (Hs : search r false (pre ++ post) <> None)
          by (apply IH; now exists pre, post).
        destruct (search r false (pre ++ post)) as [[i k]|]; congruence.
    + intros _. exists [], (c :: s). split; [reflexivity | congruence].
    + congruence.
Qed.

Lemma RegExp_test_iff (r : regex) (s : jsstring) :
  (forall at0 s, ends r at0 s = ends r false s) ->
  RegExp_test r s = true <->
  exists pre post, s = pre ++ post /\ ends r false post <> [].
Proof.
  intros Hr. rewrite <- (search_Some_iff r Hr s true). unfold RegExp_test.
  destruct (search r true s); split; congruence.
Qed.

(** ** Extensions *)

Lemma nonempty_app {A : Type} (l1 l2 : list A) :
  l1 ++ l2 <> [] <-> l1 <> [] \/ l2 <> [].
Proof.
  destruct l1; simpl; split; try tauto; try (intros _; left); congruence.
Qed.

Lemma nonempty_map {A B : Type} (f : A -> B) (l : list A) :
  map f l <> [] <-> l <> [].
Proof. destruct l; simpl; split; congruence. Qed.

Lemma nonempty_if {A : Type} (b : bool) (x : A) :
  (if b then [x] else []) <> [] <-> b = true.
Proof. destruct b; split; congruence. Qed.

Lemma ends_allExtsRegex (at0 : bool) (s : jsstring) :
  ends allExtsRegex at0 s <> [] <->
  exists ext, In ext targetExts /\ startsWith ext s = true.
Proof.
  unfold allExtsRegex. rewrite ends_Seq_Chr.
  destruct s as [|c s].
  - split; [congruence|]. intros (ext & Hin & Hs). simpl in Hin.
    repeat (destruct Hin as [<- | Hin]; [discriminate|]). destruct Hin.
  - destruct (Ascii.eqb "." c) eqn:Hc.
    + rewrite nonempty_map, !ends_Alt, !ends_lit.
      rewrite !nonempty_app, !nonempty_if. split.
      * intros [H | [H | [H | [H | [H | H]]]]];
          [ exists (js ".md") | exists (js ".png") | exists (js ".jpg")
          | exists (js ".jpeg") | exists (js ".svg") | exists (js ".gif") ];
          (split; [simpl; tauto|]);
          cbn [js list_ascii_of_string startsWith]; rewrite Hc; exact H.
      * intros (ext & Hin & Hs). simpl in Hin.
        repeat (destruct Hin as [<- | Hin];
                [cbn [js list_ascii_of_string startsWith] in Hs;
                 rewrite Hc in Hs; tauto|]).
        destruct Hin.
    + split; [congruence|]. intros (ext & Hin & Hs). simpl in Hin.
      repeat (destruct Hin as [<- | Hin];
              [cbn [js list_ascii_of_string startsWith] in Hs;
               rewrite Hc in Hs; discriminate|]).
      destruct Hin.
Qed.

Lemma ends_imageExtsRegex (at0 : bool) (s : jsstring) :
  ends imageExtsRegex at0 s <> [] <->
  exists ext, In ext imageExts /\ startsWith ext s = true.
Proof.
  unfold imageExtsRegex. rewrite ends_Seq_Chr.
  destruct s as [|c s].
  - split; [congruence|]. intros (ext & Hin & Hs). simpl in Hin.
    repeat (destruct Hin as [<- | Hin]; [discriminate|]). destruct Hin.
  - destruct (Ascii.eqb "." c) eqn:Hc.
    + rewrite nonempty_map, !ends_Alt, !ends_lit.
      rewrite !nonempty_app, !nonempty_if. split.
      * intros [H | [H | [H | [H | H]]]];
          [ exists (js ".png") | exists (js ".jpg")
          | exists (js ".jpeg") | exists (js ".svg") | exists (js ".gif") ];
          (split; [simpl; tauto|]);
          cbn [js list_ascii_of_string startsWith]; rewrite Hc; exact H.
      * intros (ext & Hin & Hs). simpl in Hin.
        repeat (destruct Hin as [<- | Hin];
                [cbn [js list_ascii_of_string startsWith] in Hs;
                 rewrite Hc in Hs; tauto|]).
        destruct Hin.
    + split; [congruence|]. intros (ext & Hin & Hs). simpl in Hin.
      repeat (destruct Hin as [<- | Hin];
              [cbn [js list_ascii_of_string startsWith] in Hs;
               rewrite Hc in Hs; discriminate|]).
      destruct Hin.
Qed.

(** A pattern that matches the words of [exts], and nothing else, at
    any position, is found in the strings that contain one of them. *)
Lemma RegExp_test_contains (r : regex) (exts : list jsstring) :
  (forall at0 s, ends r at0 s = ends r false s) ->
  (forall s, ends r false s <> [] <->
             exists ext, In ext exts /\ startsWith ext s = true) ->
  forall s, RegExp_test r s = true <-> containsOneOf exts s.
Proof.
  intros Hr Hexts s. rewrite (RegExp_test_iff r s Hr). unfold containsOneOf.
  split.
  - intros (pre & post & -> & Hne).
    apply Hexts in Hne as (ext & Hin & Hs).
    apply startsWith_iff in Hs as [t ->]. now exists pre, ext, t.
  - intros (pre & ext & post & Hin & ->).
    exists pre, (ext ++ post). split; [reflexivity|].
    apply Hexts. exists ext. split; [assumption | apply startsWith_app].
Qed.

Lemma allExtsRegex_contains (s : jsstring) :
  RegExp_test allExtsRegex s = true <-> containsOneOf targetExts s.
Proof.
  apply RegExp_test_contains.
  - intros at0 s'. unfold allExtsRegex. now rewrite !ends_Seq_Chr.
  - intros s'. apply ends_allExtsRegex.
Qed.

(** What [containsImageExt] computes: it is true if and only if one of
    [.png], [.jpg], [.jpeg], [.svg], [.gif] occurs somewhere in [path],
    at its end or before it; the match is case-sensitive. *)
Lemma containsImageExt_iff_contains (path : jsstring) :
  (containsImageExt path = true <-> containsOneOf imageExts path)
  /\ containsImageExt "PHOTO.PNG" = false.
Proof.
  split; [|reflexivity]. apply RegExp_test_contains.
  - intros at0 s'. unfold imageExtsRegex. now rewrite !ends_Seq_Chr.
  - intros s'. apply ends_imageExtsRegex.
Qed.

(** C3: on ['photo.png.txt'], a path that does not end with an image
    extension, [containsImageExt] answers true, where the claim says
    false: the pattern of the image extensions has no anchor at the end
    of the string.  The pattern of [containsMarkdownExt] has one, and
    that test answers false on ['note.md.txt']. *)
Theorem containsImageExt_photo_png_txt :
  containsImageExt "photo.png.txt" = true
  /\ ~ endsWithOneOf imageExts "photo.png.txt"
  /\ containsMarkdownExt "note.md.txt" = false.
Proof.
  split; [reflexivity | split; [|reflexivity]].
  intros (pre & ext & Hin & E).
  apply (f_equal (@rev ascii)) in E. rewrite rev_app_distr in E.
  simpl in Hin.
  repeat (destruct Hin as [<- | Hin]; [cbn in E; discriminate|]).
  destruct Hin.
Qed.

(** C5: for every string [s], base path and flag, [extractLongRef] and
    [extractShortRef] return null exactly when [s] contains none of the
    target extensions; nothing else makes them fail, and they are total
    functions, which throw on no input. *)
Theorem extract_null_iff_unrecognized
        (basename : jsstring -> jsstring) (basePath s : jsstring)
        (preserveExtension : bool) :
  (extractLongRef basePath s preserveExtension = None
   <-> ~ containsOneOf targetExts s)
  /\ (extractShortRef basename s preserveExtension = None
      <-> ~ containsOneOf targetExts s).
Proof.
  rewrite <- allExtsRegex_contains.
  unfold extractLongRef, extractShortRef.
  destruct (RegExp_test allExtsRegex s), preserveExtension;
    repeat split; congruence.
Qed.

(** ** Splitting *)

Lemma String_split_notin (s : jsstring) (sep : ascii) :
  ~ In sep s -> String_split s sep = [s].
Proof.
  induction s as [|c s IH]; intros Hnotin; [reflexivity|].
  cbn [String_split]. destruct (Ascii.eqb c sep) eqn:E.
  - apply Ascii.eqb_eq in E. subst c. exfalso. apply Hnotin. now left.
  - rewrite IH; [reflexivity|]. intros Hin. apply Hnotin. now right.
Qed.

Lemma String_split_first (pre post : jsstring) (sep : ascii) :
  ~ In sep pre ->
  String_split (pre ++ sep :: post) sep = pre :: String_split post sep.
Proof.
  induction pre as [|c pre IH]; intros Hnotin; cbn [app String_split].
  - now rewrite Ascii.eqb_refl.
  - destruct (Ascii.eqb c sep) eqn:E.
    + apply Ascii.eqb_eq in E. subst c. exfalso. apply Hnotin. now left.
    + rewrite IH; [reflexivity|]. intros Hin. apply Hnotin. now right.
Qed.

Lemma first_separator (s : jsstring) (sep : ascii) :
  In sep s -> exists pre post, s = pre ++ sep :: post /\ ~ In sep pre.
Proof.
  induction s as [|c s IH]; intros Hin; [destruct Hin|].
  destruct (ascii_dec c sep) as [-> | Hne].
  - exists [], s. split; [reflexivity | intros []].
  - destruct Hin as [-> | Hin]; [congruence|].
    destruct (IH Hin) as (pre & post & -> & Hpre).
    exists (c :: pre), post. split; [reflexivity|].
    intros [-> | H]; [congruence | contradiction].
Qed.

(** The first two elements of [s.split('|')]. *)
Lemma String_split_segments (s : jsstring) :
  firstTwoSegments s (nth 0 (String_split s "|") [])
                   (nth 1 (String_split s "|") []).
Proof.
  destruct (in_dec ascii_dec "|"%char s) as [Hin | Hnotin].
  - right. destruct (first_separator _ _ Hin) as (pre & post & -> & Hpre).
    rewrite String_split_first by assumption. cbn [nth].
    destruct (in_dec ascii_dec "|"%char post) as [Hin' | Hnotin'].
    + destruct (first_separator _ _ Hin') as (lbl & rest & -> & Hlbl).
      rewrite String_split_first by assumption. cbn [nth].
      repeat split; try assumption. right. now exists rest.
    + rewrite String_split_notin by assumption. cbn [nth].
      repeat split; try assumption. now left.
  - left. rewrite String_split_notin by assumption. now repeat split.
Qed.

(** C4 (as amended): for every recognized input, [extractLongRef] and
    [extractShortRef] return the first two segments of the processed
    string between [|] characters: [ref] is everything before the first
    [|], [label] is what stands between the first [|] and the second
    one (what follows a second [|] is dropped), and [label] is the
    empty string when there is no [|]. *)
Theorem extract_first_two_segments
        (basename : jsstring -> jsstring) (basePath path : jsstring)
        (preserveExtension : bool) :
  containsOneOf targetExts path ->
  (exists r, extractLongRef basePath path preserveExtension = Some r
             /\ firstTwoSegments (processedLong basePath path preserveExtension)
                                 (ref r) (label r))
  /\ (exists r, extractShortRef basename path preserveExtension = Some r
                /\ firstTwoSegments (processedShort basename path preserveExtension)
                                    (ref r) (label r)).
Proof.
  intros Hrec. apply allExtsRegex_contains in Hrec.
  unfold extractLongRef, extractShortRef, processedLong, processedShort,
    processed.
  rewrite Hrec.
  destruct preserveExtension; split; eexists; (split; [reflexivity|]);
    apply String_split_segments.
Qed.

Lemma extract_first_two_segments_witness :
  (exists r, extractLongRef "/notes/" "/notes/a/b.md|x|y" false = Some r
             /\ firstTwoSegments (processedLong "/notes/" "/notes/a/b.md|x|y" false)
                                 (ref r) (label r))
  /\ (exists r, extractShortRef posix_basename "/notes/a/b.md|x|y" false = Some r
                /\ firstTwoSegments
                     (processedShort posix_basename "/notes/a/b.md|x|y" false)
                     (ref r) (label r)).
Proof.
  apply (extract_first_two_segments posix_basename "/notes/" "/notes/a/b.md|x|y" false).
  exists (js "/notes/a/b"), (js ".md"), (js "|x|y").
  split; [simpl; tauto | reflexivity].
Defined.

(** C4 (as stated) fails on ['a.md|x|y']: the processed string is
    ['a|x|y'], and the label returned is ['x'], not ['x|y']. *)
Lemma extract_label_not_whole :
  extractLongRef "" "a.md|x|y" false = Some (mkRef "a" "x")
  /\ extractShortRef posix_basename "a.md|x|y" false = Some (mkRef "a" "x")
  /\ processedLong "" "a.md|x|y" false = "a|x|y"
  /\ processedShort posix_basename "a.md|x|y" false = "a|x|y"
  /\ ~ splitsOnFirstPipe "a|x|y" "a" "x".
Proof.
  repeat split; try reflexivity.
  intros [(Hnotin & _) | (_ & E)].
  - apply Hnotin. simpl. tauto.
  - discriminate E.
Qed.

(** ** Removing the base path *)

Lemma String_replace_unfold (s pat repl : jsstring) :
  String_replace s pat repl =
  if startsWith pat s then repl ++ skipn (length pat) s
  else match s with
       | [] => []
       | c :: s' => c :: String_replace s' pat repl
       end.
Proof. destruct s; reflexivity. Qed.

Lemma skipn_length_app {A : Type} (l1 l2 : list A) :
  skipn (length l1) (l1 ++ l2) = l2.
Proof. induction l1 as [|x l1 IH]; [reflexivity | exact IH]. Qed.

(** The occurrence that [replace] removes is the first one, wherever it
    stands. *)
Lemma String_replace_first (base pre post repl : jsstring) :
  firstOccurrence base pre post ->
  String_replace (pre ++ base ++ post) base repl = pre ++ repl ++ post.
Proof.
  induction pre as [|c pre IH]; intros Hfirst; rewrite String_replace_unfold.
  - cbn [app]. now rewrite startsWith_app, skipn_length_app.
  - destruct (startsWith base ((c :: pre) ++ base ++ post)) eqn:E.
    + apply startsWith_iff in E as [t E].
      specialize (Hfirst [] t E). simpl in Hfirst. lia.
    + cbn [app]. f_equal. apply IH. intros pre' post' E'.
      specialize (Hfirst (c :: pre') post'). cbn [app length] in Hfirst.
      rewrite E' in Hfirst. specialize (Hfirst eq_refl). lia.
Qed.

(** C10: [extractLongRef] removes the first occurrence of [basePath]
    wherever it stands in [rawPath], not only at its head: when
    [basePath] first occurs after [pre], the reference is computed from
    [pre ++ post], the path with that occurrence deleted. *)
Theorem extractLongRef_removes_first_occurrence
        (basePath pre post : jsstring) (preserveExtension : bool) :
  firstOccurrence basePath pre post ->
  containsOneOf targetExts (pre ++ basePath ++ post) ->
  String_replace (pre ++ basePath ++ post) basePath "" = pre ++ post
  /\ extractLongRef basePath (pre ++ basePath ++ post) preserveExtension
     = Some {| ref := nth 0 (String_split
                               (processed preserveExtension
                                  (RegExp_replace_g (Chr "\") (pre ++ post) "/"))
                               "|") [];
               label := nth 1 (String_split
                                 (processed preserveExtension
                                    (RegExp_replace_g (Chr "\") (pre ++ post) "/"))
                                 "|") [] |}.
Proof.
  intros Hfirst Hrec. apply allExtsRegex_contains in Hrec.
  pose proof (String_replace_first basePath pre post (js "") Hfirst) as E.
  cbn [js list_ascii_of_string app] in E.
  split; [exact E|].
  unfold extractLongRef, processed. rewrite Hrec.
  change (js "") with (@nil ascii). rewrite E.
  now destruct preserveExtension.
Qed.

Lemma extractLongRef_removes_first_occurrence_witness :
  (String_replace (js "a/" ++ js "notes/" ++ js "b.md") "notes/" "" = js "a/" ++ js "b.md"
  /\ extractLongRef "notes/" (js "a/" ++ js "notes/" ++ js "b.md") false
     = Some {| ref := nth 0 (String_split
                               (processed false
                                  (RegExp_replace_g (Chr "\") (js "a/" ++ js "b.md") "/"))
                               "|") [];
               label := nth 1 (String_split
                                 (processed false
                                    (RegExp_replace_g (Chr "\") (js "a/" ++ js "b.md") "/"))
                                 "|") [] |})
  /\ extractLongRef "notes/" "a/notes/b.md" false = Some (mkRef "a/b" "").
Proof.
  split; [|reflexivity].
  apply (extractLongRef_removes_first_occurrence "notes/" "a/" "b.md" false).
  - intros pre' post' E.
    destruct pre' as [|x [|y pre']]; [discriminate E | discriminate E |].
    simpl. lia.
  - exists (js "a/notes/b"), (js ".md"), (js "").
    split; [simpl; tauto | reflexivity].
Defined.

(** C6: [extractLongRef('/notes/', '/notes/a/b.md')] returns
    [{ ref: 'a/b', label: '' }], and with [preserveExtension] it returns
    [{ ref: 'a/b.md', label: '' }]. *)
Theorem extractLongRef_notes_example :
  extractLongRef "/notes/" "/notes/a/b.md" false = Some (mkRef "a/b" "")
  /\ extractLongRef "/notes/" "/notes/a/b.md" true = Some (mkRef "a/b.md" "").
Proof. split; reflexivity. Qed.

(** C7: [extractShortRef('/notes/a/b.md|My Note')] returns
    [{ ref: 'b', label: 'My Note' }]: the directories are dropped by
    [basename], the extension is removed, and the text after [|] is the
    label. *)
Theorem extractShortRef_my_note_example :
  extractShortRef posix_basename "/notes/a/b.md|My Note" false
  = Some (mkRef "b" "My Note")
  /\ posix_basename "/notes/a/b.md|My Note" = "b.md|My Note".
Proof. split; reflexivity. Qed.

(** ** The reference locator *)

Lemma bind_Returns {A B : Type} (m : outcome A) (k : A -> outcome B) (b : B) :
  bind m k = Returns b -> exists a, m = Returns a /\ k a = Returns b.
Proof. destruct m; simpl; intros H; [now exists a | discriminate..]. Qed.

Section LocatorProperties.

Variable env : Capabilities.

(** Every hit that a file adds is located in that file. *)
Lemma forEach_uri (fsPath : jsstring) (doc : TextDocument env)
      (matches : list RegExpMatchArray) :
  forall refs0 refs,
    forEach env fsPath doc matches refs0 = Returns refs ->
    forall r, In r refs -> In r refs0 \/ uri (location r) = fsPath.
Proof.
  induction matches as [|m matches IH]; intros refs0 refs H r Hr;
    cbn [forEach] in H.
  - injection H as <-. now left.
  - apply bind_Returns in H as (refs1 & Hpush & Hrest).
    unfold pushMatch in Hpush.
    apply bind_Returns in Hpush as (g1 & _ & Hpush).
    injection Hpush as <-.
    destruct (IH _ _ Hrest r Hr) as [Hin | Huri]; [|now right].
    apply in_app_or in Hin as [Hin | [<- | []]]; [now left | now right].
Qed.

Lemma scanFile_uri (fuel : nat) (ref fsPath : jsstring) :
  forall refs0 refs,
    scanFile env fuel ref fsPath refs0 = Returns refs ->
    forall r, In r refs -> In r refs0 \/ uri (location r) = fsPath.
Proof.
  intros refs0 refs H r Hr. unfold scanFile in H.
  apply bind_Returns in H as (content & _ & H).
  apply bind_Returns in H as (pattern & _ & H).
  apply bind_Returns in H as (matches & _ & H).
  destruct matches as [|m matches].
  - injection H as <-. now left.
  - apply bind_Returns in H as (doc & _ & H).
    exact (forEach_uri _ _ _ _ _ H r Hr).
Qed.

Lemma scan_uri (fuel : nat) (ref : jsstring) (excludePaths : list jsstring) :
  forall uris refs0 refs,
    scan env fuel ref excludePaths uris refs0 = Returns refs ->
    forall r, In r refs ->
              In r refs0 \/ ~ In (uri (location r)) excludePaths.
Proof.
  induction uris as [|fsPath uris IH]; intros refs0 refs H r Hr;
    cbn [scan] in H.
  - injection H as <-. now left.
  - destruct (includes excludePaths fsPath) eqn:Hex.
    + exact (IH _ _ H r Hr).
    + apply bind_Returns in H as (refs1 & Hfile & Hrest).
      destruct (IH _ _ Hrest r Hr) as [Hin | Hout]; [|now right].
      destruct (scanFile_uri _ _ _ _ _ Hfile r Hin) as [Hin0 | Huri];
        [now left | right].
      rewrite Huri. intros Hin'. apply includes_In in Hin'. congruence.
Qed.

(** A file in which the pattern finds nothing adds no hit. *)
Lemma scanFile_no_match (fuel : nat) (ref fsPath : jsstring)
      (refs0 : list FoundRefT) (content : jsstring) (pattern : RegExp env) :
  readFileSync env fsPath = Some content ->
  RegExp_new env (refRegExpSource ref) = Some pattern ->
  fst (RegExp_exec env pattern content 0) = None ->
  scanFile env (S fuel) ref fsPath refs0 = Returns refs0.
Proof.
  intros Hread Hnew Hexec. unfold scanFile.
  rewrite Hread, Hnew. cbn [orThrow bind].
  unfold matchAll. cbn [matchAll_loop].
  destruct (RegExp_exec env pattern content 0) as [[m|] lastIndex];
    [discriminate | reflexivity].
Qed.


Lemma scan_app (fuel : nat) (ref : jsstring) (excludePaths : list jsstring) :
  forall uris1 uris2 refs0,
    scan env fuel ref excludePaths (uris1 ++ uris2) refs0
    = bind (scan env fuel ref excludePaths uris1 refs0)
           (fun refs1 => scan env fuel ref excludePaths uris2 refs1).
Proof.
  induction uris1 as [|fsPath uris1 IH]; intros uris2 refs0;
    [reflexivity|].
  cbn [app scan].
  destruct (includes excludePaths fsPath); [apply IH|].
  destruct (scanFile env fuel ref fsPath refs0); cbn [bind];
    [apply IH | reflexivity..].
Qed.

(** C8: no element of the list that [findReferences] returns is
    located in a file of [excludePaths]; and when the pattern finds
    nothing in the files that are not excluded, as on a fixture whose
    only matching file is excluded, the list returned is empty. *)
Theorem findReferences_excludes
        (fuel : nat) (workspaceCache : WorkspaceCache) (ref : jsstring)
        (excludePaths : list jsstring) :
  (forall refs,
      findReferences env fuel workspaceCache ref excludePaths = Returns refs ->
      forall r, In r refs -> ~ In (uri (location r)) excludePaths)
  /\ ((forall fsPath,
          In fsPath (markdownUris workspaceCache) ->
          ~ In fsPath excludePaths ->
          exists content pattern,
            readFileSync env fsPath = Some content
            /\ RegExp_new env (refRegExpSource ref) = Some pattern
            /\ fst (RegExp_exec env pattern content 0) = None) ->
      findReferences env (S fuel) workspaceCache ref excludePaths = Returns []).
Proof.
  split.
  - intros refs H r Hr.
    destruct (scan_uri _ _ _ _ _ _ H r Hr) as [[] | Hout]. exact Hout.
  - unfold findReferences.
    induction (markdownUris workspaceCache) as [|fsPath uris IH];
      intros Hquiet; [reflexivity|].
    cbn [scan].
    destruct (includes excludePaths fsPath) eqn:Hex.
    + apply IH. intros p Hp. apply Hquiet. now right.
    + destruct (Hquiet fsPath) as (content & pattern & Hread & Hnew & Hexec).
      * now left.
      * intros Hin. apply includes_In in Hin. congruence.
      * rewrite (scanFile_no_match _ _ _ _ _ _ Hread Hnew Hexec).
        cbn [bind]. apply IH. intros p Hp. apply Hquiet. now right.
Qed.


End LocatorProperties.

Lemma findReferences_excludes_witness :
  (exists hit1 hit2,
      findReferences Fixture.env 3 Fixture.workspaceCache "target" []
      = Returns [hit1; hit2]
      /\ uri (location hit1) = Fixture.note
      /\ uri (location hit2) = Fixture.note)
  /\ findReferences Fixture.env 1 Fixture.workspaceCache "target" [Fixture.note]
     = Returns [].
Proof.
  split; [eexists; eexists; repeat split|].
  apply (findReferences_excludes Fixture.env 0 Fixture.workspaceCache
                                 "target" [Fixture.note]).
  intros fsPath [<- | [<- | []]] Hnotex.
  - exfalso. apply Hnotex. now left.
  - exists Fixture.otherText, tt. repeat split.
Defined.



(** * Further properties of the code *)

(** ** Slash trimming *)

Lemma run_repeat_app (c : ascii) (n : nat) (t : jsstring) :
  run c (repeat c n ++ t) = n + run c t.
Proof.
  induction n as [|n IH]; [reflexivity|].
  cbn [repeat app run]. now rewrite Ascii.eqb_refl, IH.
Qed.

Lemma skipn_repeat_app {A : Type} (x : A) (n : nat) (t : list A) :
  skipn n (repeat x n ++ t) = t.
Proof. induction n as [|n IH]; [reflexivity | exact IH]. Qed.

Lemma run_0_startsWith (c : ascii) (t : jsstring) :
  run c t = 0 <-> startsWith [c] t = false.
Proof.
  destruct t as [|c' t]; cbn [run startsWith]; [tauto|].
  rewrite andb_true_r. destruct (Ascii.eqb c c'); split; congruence.
Qed.

(** X1: [trimLeadingSlash] removes one run of separators of one kind:
    the run of [/] the string starts with, or the run of backslashes it
    starts with, and it leaves the rest as it is, a separator of the
    other kind that follows the run included.  A string that starts
    with no separator is returned unchanged. *)
Theorem trimLeadingSlash_strips_one_run (n : nat) (t : jsstring) :
  (startsWith "/" t = false ->
   trimLeadingSlash (repeat "/"%char (S n) ++ t) = t)
  /\ (startsWith "\" t = false ->
      trimLeadingSlash (repeat "\"%char (S n) ++ t) = t)
  /\ (startsWith "/" t = false -> startsWith "\" t = false ->
      trimLeadingSlash t = t).
Proof.
  repeat split.
  - intros H. apply run_0_startsWith in H.
    rewrite trimLeadingSlash_spec, run_repeat_app, H, Nat.add_0_r.
    apply (skipn_repeat_app "/"%char (S n)).
  - intros H. apply run_0_startsWith in H.
    rewrite trimLeadingSlash_spec.
    replace (run "/" (repeat "\"%char (S n) ++ t)) with 0 by reflexivity.
    rewrite run_repeat_app, H, Nat.add_0_r.
    apply (skipn_repeat_app "\"%char (S n)).
  - intros H1 H2. apply run_0_startsWith in H1, H2.
    now rewrite trimLeadingSlash_spec, H1, H2.
Qed.

Lemma trimLeadingSlash_strips_one_run_witness :
  trimLeadingSlash (repeat "/"%char 2 ++ js "\a/b") = js "\a/b"
  /\ trimLeadingSlash (repeat "\"%char 2 ++ js "/a\b") = js "/a\b"
  /\ trimLeadingSlash (js "a/b") = js "a/b".
Proof.
  pose proof (trimLeadingSlash_strips_one_run 1 (js "\a/b")) as (H1 & _ & _).
  pose proof (trimLeadingSlash_strips_one_run 1 (js "/a\b")) as (_ & H2 & _).
  pose proof (trimLeadingSlash_strips_one_run 1 (js "a/b")) as (_ & _ & H3).
  split; [|split].
  - apply H1. reflexivity.
  - apply H2. reflexivity.
  - apply H3; reflexivity.
Defined.

Lemma all_backslashes_iff (s : jsstring) :
  (0 <? length s) && (run "\" s =? length s) = true
  <-> s <> [] /\ Forall (fun c => c = "\"%char) s.
Proof.
  rewrite andb_true_iff, Nat.ltb_lt, Nat.eqb_eq. split.
  - intros [Hpos Hrun]. split; [now destruct s; [simpl in Hpos; lia|]|].
    clear Hpos. induction s as [|c s IH]; [constructor|].
    cbn [run length] in Hrun.
    destruct (Ascii.eqb "\" c) eqn:Hc; [|discriminate].
    apply Ascii.eqb_eq in Hc. constructor; [congruence|].
    apply IH. lia.
  - intros [Hne Hall]. split; [destruct s; [congruence | simpl; lia]|].
    clear Hne. induction Hall as [|c s -> _ IH]; [reflexivity|].
    cbn [run length]. now rewrite Ascii.eqb_refl, IH.
Qed.

(** X2: [trimTrailingSlash] removes every [/] of the string, at the end
    or not, and nothing else: the other characters are kept in their
    order, trailing backslashes included.  The one exception is a string
    made of backslashes only, which becomes empty. *)
Theorem trimTrailingSlash_removes_every_slash (s : jsstring) :
  (Forall (fun c => c = "\"%char) s -> trimTrailingSlash s = [])
  /\ (~ Forall (fun c => c = "\"%char) s ->
      trimTrailingSlash s = filter (fun c => negb (Ascii.eqb "/" c)) s).
Proof.
  rewrite trimTrailingSlash_spec. split; intros H.
  - destruct s as [|c s]; [reflexivity|].
    assert (E : (0 <? length (c :: s)) && (run "\" (c :: s) =? length (c :: s))
                = true) by (apply all_backslashes_iff; split; [discriminate | exact H]).
    now rewrite E.
  - destruct ((0 <? length s) && (run "\" s =? length s)) eqn:E; [|reflexivity].
    apply all_backslashes_iff in E as [_ E]. contradiction.
Qed.

Lemma trimTrailingSlash_removes_every_slash_witness :
  trimTrailingSlash (js "\\\") = []
  /\ trimTrailingSlash (js "a/b\c/\")
     = filter (fun c => negb (Ascii.eqb "/" c)) (js "a/b\c/\").
Proof.
  pose proof (trimTrailingSlash_removes_every_slash (js "\\\")) as (H1 & _).
  pose proof (trimTrailingSlash_removes_every_slash (js "a/b\c/\")) as (_ & H2).
  split.
  - apply H1. repeat constructor.
  - apply H2. intros H. inversion H. discriminate.
Defined.

Lemma noSlash_all_backslashes (s : jsstring) :
  Forall (fun c => c = "\"%char) s -> noSlash s = s /\ run "\" s = length s.
Proof.
  induction 1 as [|c s -> _ [IH1 IH2]]; [now split|].
  split.
  - change (noSlash ("\"%char :: s)) with ("\"%char :: noSlash s).
    now rewrite IH1.
  - cbn [run length]. now rewrite Ascii.eqb_refl, IH2.
Qed.

Lemma Forall_slashFree_notin (s : jsstring) :
  Forall (fun c => Ascii.eqb "/" c = false) s <-> ~ In "/"%char s.
Proof.
  rewrite Forall_forall. split.
  - intros H Hin. specialize (H _ Hin). now rewrite Ascii.eqb_refl in H.
  - intros H c Hc. destruct (Ascii.eqb "/" c) eqn:E; [|reflexivity].
    apply Ascii.eqb_eq in E. subst c. contradiction.
Qed.

(** X3: [trimSlashes] returns the string without any of its [/], and
    without the backslashes that then stand at its head: the result
    holds no [/] and does not start with a backslash, while backslashes
    inside or at the end are kept. *)
Theorem trimSlashes_closed_form (x : jsstring) :
  trimSlashes x = skipn (run "\" (noSlash x)) (noSlash x)
  /\ ~ In "/"%char (trimSlashes x)
  /\ startsWith "\" (trimSlashes x) = false.
Proof.
  destruct (trimSlashes_normal x) as [Hfree Hrun]. split; [|split].
  - unfold trimSlashes. rewrite trimLeadingSlash_spec.
    rewrite (run_slashFree _ (trimTrailingSlash_slashFree x)).
    rewrite trimTrailingSlash_spec.
    destruct ((0 <? length x) && (run "\" x =? length x)) eqn:E; [|reflexivity].
    apply all_backslashes_iff in E as [_ E].
    destruct (noSlash_all_backslashes _ E) as [-> ->].
    now rewrite skipn_all.
  - now apply Forall_slashFree_notin.
  - now apply run_0_startsWith.
Qed.

(** ** Extensions and the shape of a reference *)

Lemma ends_Seq (r1 r2 : regex) (at0 : bool) (s : jsstring) :
  ends (Seq r1 r2) at0 s
  = flat_map (fun k => map (Nat.add k) (ends r2 (at0 && (k =? 0)) (skipn k s)))
             (ends r1 at0 s).
Proof. reflexivity. Qed.

Lemma ends_lit_Eol (w : jsstring) (at0 : bool) (s : jsstring) :
  ends (Seq (lit w) Eol) at0 s <> [] <-> s = w.
Proof.
  rewrite ends_Seq, ends_lit. destruct (startsWith w s) eqn:E.
  - apply startsWith_iff in E as [t ->].
    cbn [flat_map]. rewrite app_nil_r, skipn_length_app.
    destruct t as [|c t]; cbn [ends map].
    + rewrite app_nil_r. split; [reflexivity | discriminate].
    + split; [intros H; now contradiction H|]. intros H.
      apply (f_equal (@length ascii)) in H. rewrite length_app in H.
      simpl in H. lia.
  - cbn [flat_map]. split; [congruence|]. intros ->.
    pose proof (startsWith_app w []) as E'. rewrite app_nil_r in E'.
    congruence.
Qed.

Lemma ends_markdownExtRegex (at0 : bool) (s : jsstring) :
  ends markdownExtRegex at0 s <> [] <-> s = js ".md".
Proof.
  unfold markdownExtRegex. rewrite ends_Seq_Chr.
  destruct s as [|c s]; [split; [congruence | discriminate]|].
  destruct (Ascii.eqb "." c) eqn:Hc.
  - apply Ascii.eqb_eq in Hc. subst c.
    rewrite nonempty_map, ends_lit_Eol. split; [now intros -> | ].
    intros H. now injection H.
  - split; [congruence|]. intros H. injection H as -> _. discriminate.
Qed.

Lemma markdownExt_suffix (path : jsstring) :
  containsMarkdownExt path = true <-> exists pre, path = pre ++ js ".md".
Proof.
  unfold containsMarkdownExt. rewrite RegExp_test_iff.
  - split.
    + intros (pre & post & -> & H). apply ends_markdownExtRegex in H.
      subst post. now exists pre.
    + intros (pre & ->). exists pre, (js ".md"). split; [reflexivity|].
      now apply ends_markdownExtRegex.
  - intros at0 s. unfold markdownExtRegex. now rewrite !ends_Seq_Chr.
Qed.

(** X4: [containsMarkdownExt path] is true if and only if [path] ends
    with [.md]; unlike the test for image extensions, the pattern is
    anchored at the end of the string. *)
Theorem containsMarkdownExt_iff_suffix (path : jsstring) :
  containsMarkdownExt path = true <-> exists pre, path = pre ++ js ".md".
Proof. apply markdownExt_suffix. Qed.

Lemma imageExts_contains (s : jsstring) :
  containsImageExt s = true <-> containsOneOf imageExts s.
Proof.
  apply RegExp_test_contains.
  - intros at0 s'. unfold imageExtsRegex. now rewrite !ends_Seq_Chr.
  - intros s'. apply ends_imageExtsRegex.
Qed.

(** X5: every path that [containsMarkdownExt] or [containsImageExt]
    accepts is recognized by both parsers, which return a reference for
    it.  The parsers recognize more: they accept [a.md.txt], which
    neither test accepts. *)
Theorem recognized_when_markdown_or_image
        (basename : jsstring -> jsstring) (basePath path : jsstring)
        (preserveExtension : bool) :
  (containsMarkdownExt path = true \/ containsImageExt path = true ->
   (exists r, extractLongRef basePath path preserveExtension = Some r)
   /\ (exists r, extractShortRef basename path preserveExtension = Some r))
  /\ (containsMarkdownExt "a.md.txt" = false
      /\ containsImageExt "a.md.txt" = false
      /\ extractLongRef basePath "a.md.txt" preserveExtension <> None
      /\ extractShortRef basename "a.md.txt" preserveExtension <> None).
Proof.
  split.
  - intros H.
    assert (Hrec : RegExp_test allExtsRegex path = true).
    { apply allExtsRegex_contains. destruct H as [H | H].
      - apply markdownExt_suffix in H as [pre ->].
        exists pre, (js ".md"), []. split; [now left | reflexivity].
      - apply imageExts_contains in H as (pre & ext & post & Hin & ->).
        exists pre, ext, post. split; [now right | reflexivity]. }
    unfold extractLongRef, extractShortRef. rewrite Hrec.
    destruct preserveExtension; split; eexists; reflexivity.
  - repeat split; try reflexivity;
      unfold extractLongRef, extractShortRef;
      change (RegExp_test allExtsRegex "a.md.txt") with true; cbv iota;
      destruct preserveExtension; discriminate.
Qed.

Lemma recognized_when_markdown_or_image_witness :
  (exists r, extractLongRef "/notes/" "/notes/a/pic.png" false = Some r)
  /\ (exists r, extractShortRef posix_basename "/notes/a/pic.png" false = Some r).
Proof.
  apply (recognized_when_markdown_or_image posix_basename "/notes/"
                                           "/notes/a/pic.png" false).
  right. reflexivity.
Defined.

Lemma String_split_length (s : jsstring) (sep : ascii) :
  length (String_split s sep) = S (count_occ ascii_dec s sep).
Proof.
  induction s as [|c s IH]; [reflexivity|].
  cbn [String_split count_occ].
  destruct (Ascii.eqb c sep) eqn:E.
  - apply Ascii.eqb_eq in E. subst c.
    destruct (ascii_dec sep sep); [|congruence]. cbn [length]. now rewrite IH.
  - apply Ascii.eqb_neq in E. destruct (ascii_dec c sep); [congruence|].
    rewrite <- IH. now destruct (String_split s sep).
Qed.

Lemma isLongRef_In (path : jsstring) :
  isLongRef path = true <-> In "/"%char path.
Proof.
  unfold isLongRef. rewrite String_split_length, Nat.ltb_lt.
  rewrite (count_occ_In ascii_dec). lia.
Qed.

(** X6: [isLongRef path] is true if and only if [path] holds a [/]; a
    backslash does not make a reference long. *)
Theorem isLongRef_iff_slash (path : jsstring) :
  (isLongRef path = true <-> In "/"%char path)
  /\ isLongRef "folder\note" = false.
Proof. split; [apply isLongRef_In | reflexivity]. Qed.

(** ** What the parsers return *)

Lemma String_split_incl (s : jsstring) (sep : ascii) :
  forall seg c, In seg (String_split s sep) -> In c seg -> In c s.
Proof.
  induction s as [|x s IH]; intros seg c Hseg Hc; cbn [String_split] in Hseg.
  - destruct Hseg as [<- | []]. exact Hc.
  - destruct (Ascii.eqb x sep).
    + destruct Hseg as [<- | Hseg]; [destruct Hc|].
      right. exact (IH _ _ Hseg Hc).
    + destruct (String_split s sep) as [|seg0 segs] eqn:E.
      * destruct Hseg as [<- | []]. destruct Hc as [<- | []]. now left.
      * destruct Hseg as [<- | Hseg].
        -- destruct Hc as [<- | Hc]; [now left | right].
           apply (IH seg0 c); [now left | exact Hc].
        -- right. apply (IH seg c); [now right | exact Hc].
Qed.

Lemma String_split_nth_incl (s : jsstring) (sep : ascii) (n : nat) (c : ascii) :
  In c (nth n (String_split s sep) []) -> In c s.
Proof.
  intros Hc. destruct (nth_in_or_default n (String_split s sep) []) as [H | H].
  - exact (String_split_incl _ _ _ _ H Hc).
  - rewrite H in Hc. destruct Hc.
Qed.

Lemma RegExp_replace_incl (r : regex) (s : jsstring) (c : ascii) :
  In c (RegExp_replace r s []) -> In c s.
Proof.
  unfold RegExp_replace. destruct (search r true s) as [[i k]|]; [|tauto].
  cbn [app]. intros H. apply in_app_or in H as [H | H].
  - rewrite <- (firstn_skipn i s). apply in_or_app. now left.
  - rewrite <- (firstn_skipn (i + k) s). apply in_or_app. now right.
Qed.

Lemma trimLeadingSlash_incl (s : jsstring) (c : ascii) :
  In c (trimLeadingSlash s) -> In c s.
Proof.
  rewrite trimLeadingSlash_spec. intros H.
  destruct (run "/" s) as [|n].
  - rewrite <- (firstn_skipn (run "\" s) s). apply in_or_app. now right.
  - rewrite <- (firstn_skipn (S n) s). apply in_or_app. now right.
Qed.

Lemma processed_incl (preserveExtension : bool) (ref0 : jsstring) (c : ascii) :
  In c (processed preserveExtension ref0) -> In c ref0.
Proof.
  unfold processed. intros H. apply trimLeadingSlash_incl in H.
  destruct preserveExtension; [exact H | now apply RegExp_replace_incl in H].
Qed.

Lemma run_0_notin (c : ascii) (s : jsstring) : ~ In c s -> run c s = 0.
Proof.
  destruct s as [|c' s]; [reflexivity|]. intros H. cbn [run].
  destruct (Ascii.eqb c c') eqn:E; [|reflexivity].
  apply Ascii.eqb_eq in E. subst c'. exfalso. apply H. now left.
Qed.

(** Without a backslash in it, all the [/] at the head of the string
    are trimmed. *)
Lemma trimLeadingSlash_no_backslash (s : jsstring) :
  ~ In "\"%char s -> run "/" (trimLeadingSlash s) = 0.
Proof.
  intros H. rewrite trimLeadingSlash_spec.
  destruct (run "/" s) as [|n] eqn:E.
  - now rewrite (run_0_notin _ _ H).
  - rewrite <- E. apply run_skipn_run.
Qed.

Lemma backslashes_to_slashes_notin (s : jsstring) :
  ~ In "\"%char (RegExp_replace_g (Chr "\") s "/").
Proof.
  rewrite backslashes_to_slashes. intros H. apply in_map_iff in H as (c & E & _).
  destruct (Ascii.eqb "\" c) eqn:Hc; [discriminate|].
  subst c. now rewrite Ascii.eqb_refl in Hc.
Qed.

Lemma segments_no_bar (s : jsstring) :
  ~ In "|"%char (nth 0 (String_split s "|") [])
  /\ ~ In "|"%char (nth 1 (String_split s "|") []).
Proof.
  destruct (String_split_segments s) as [(H & -> & ->) | (H1 & H2 & _)];
    [split; [exact H | intros []] | now split].
Qed.

Lemma first_segment_head (s : jsstring) (c : ascii) :
  run c s = 0 -> run c (nth 0 (String_split s "|") []) = 0.
Proof.
  destruct (String_split_segments s) as [(_ & -> & _) | (_ & _ & H)];
    [tauto|].
  assert (E : exists t, s = nth 0 (String_split s "|") [] ++ t).
  { destruct H as [H | [rest H]]; eexists; exact H. }
  destruct E as [t E]. revert E.
  generalize (nth 0 (String_split s "|") []). intros seg -> Hrun.
  destruct seg as [|x seg]; [reflexivity|].
  cbn [app run] in *. now destruct (Ascii.eqb c x).
Qed.

(** X7: whatever [extractLongRef] returns is normalized: neither [ref]
    nor [label] holds a [|] or a backslash, and [ref] does not start
    with a [/]. *)
Theorem extractLongRef_normal_form
        (basePath path : jsstring) (preserveExtension : bool) (r : RefT) :
  extractLongRef basePath path preserveExtension = Some r ->
  ~ In "|"%char (ref r) /\ ~ In "|"%char (label r)
  /\ ~ In "\"%char (ref r) /\ ~ In "\"%char (label r)
  /\ startsWith "/" (ref r) = false.
Proof.
  intros H.
  assert (E : r = {| ref := nth 0 (String_split
                                     (processedLong basePath path preserveExtension)
                                     "|") [];
                     label := nth 1 (String_split
                                       (processedLong basePath path preserveExtension)
                                       "|") [] |}).
  { unfold extractLongRef in H. unfold processedLong, processed.
    destruct (RegExp_test allExtsRegex path); [|discriminate].
    destruct preserveExtension; now injection H as <-. }
  subst r. cbn [ref label].
  destruct (segments_no_bar (processedLong basePath path preserveExtension))
    as [Hr Hl].
  assert (Hback : ~ In "\"%char (processedLong basePath path preserveExtension)).
  { intros Hin. unfold processedLong in Hin. apply processed_incl in Hin.
    exact (backslashes_to_slashes_notin _ Hin). }
  repeat split; try assumption.
  - intros Hin. apply Hback. exact (String_split_nth_incl _ _ _ _ Hin).
  - intros Hin. apply Hback. exact (String_split_nth_incl _ _ _ _ Hin).
  - apply run_0_startsWith, first_segment_head.
    unfold processedLong, processed. apply trimLeadingSlash_no_backslash.
    intros Hin.
    assert (Hin' : In "\"%char
                      (RegExp_replace_g (Chr "\")
                         (String_replace path basePath "") "/")).
    { destruct preserveExtension; [exact Hin | now apply RegExp_replace_incl in Hin]. }
    exact (backslashes_to_slashes_notin _ Hin').
Qed.

Lemma extractLongRef_normal_form_witness :
  ~ In "|"%char (js "a/b") /\ ~ In "|"%char (js "x/y")
  /\ ~ In "\"%char (js "a/b") /\ ~ In "\"%char (js "x/y")
  /\ startsWith "/" (js "a/b") = false.
Proof.
  apply (extractLongRef_normal_form "c:\notes" "c:\notes\a\b.md|x\y|z" false
                                    (mkRef "a/b" "x/y")).
  reflexivity.
Defined.

Lemma upToSlash_notin (s : jsstring) : ~ In "/"%char (upToSlash s).
Proof.
  induction s as [|c s IH]; [intros []|]. cbn [upToSlash].
  destruct (Ascii.eqb c "/") eqn:E; [intros []|].
  intros [-> | H]; [now rewrite Ascii.eqb_refl in E | contradiction].
Qed.

Lemma posix_basename_notin (p : jsstring) : ~ In "/"%char (posix_basename p).
Proof.
  unfold posix_basename. intros H. apply in_rev in H.
  exact (upToSlash_notin _ H).
Qed.

(** X8: with the POSIX [basename], what [extractShortRef] returns is
    never a long reference: neither [ref] nor [label] holds a [/], so
    [isLongRef] is false of [ref]; nor does either hold a [|]. *)
Theorem extractShortRef_never_long
        (path : jsstring) (preserveExtension : bool) (r : RefT) :
  extractShortRef posix_basename path preserveExtension = Some r ->
  isLongRef (ref r) = false
  /\ ~ In "/"%char (label r)
  /\ ~ In "|"%char (ref r) /\ ~ In "|"%char (label r).
Proof.
  intros H.
  assert (E : r = {| ref := nth 0 (String_split
                                     (processedShort posix_basename path
                                                     preserveExtension) "|") [];
                     label := nth 1 (String_split
                                       (processedShort posix_basename path
                                                       preserveExtension) "|") [] |}).
  { unfold extractShortRef in H. unfold processedShort, processed.
    destruct (RegExp_test allExtsRegex path); [|discriminate].
    destruct preserveExtension; now injection H as <-. }
  subst r. cbn [ref label].
  destruct (segments_no_bar (processedShort posix_basename path preserveExtension))
    as [Hr Hl].
  assert (Hslash : ~ In "/"%char
                     (processedShort posix_basename path preserveExtension)).
  { intros Hin. unfold processedShort in Hin. apply processed_incl in Hin.
    exact (posix_basename_notin _ Hin). }
  repeat split; try assumption.
  - destruct (isLongRef _) eqn:E; [|reflexivity].
    apply isLongRef_In in E. exfalso. apply Hslash.
    exact (String_split_nth_incl _ _ _ _ E).
  - intros Hin. apply Hslash. exact (String_split_nth_incl _ _ _ _ Hin).
Qed.

Lemma extractShortRef_never_long_witness :
  isLongRef (js "b") = false
  /\ ~ In "/"%char (js "My Note")
  /\ ~ In "|"%char (js "b") /\ ~ In "|"%char (js "My Note").
Proof.
  apply (extractShortRef_never_long "/notes/a/b.md|My Note" false
                                    (mkRef "b" "My Note")).
  reflexivity.
Defined.

(** ** Separators and extensions in the parsers *)

Lemma String_replace_empty (s : jsstring) : String_replace s [] [] = s.
Proof. now rewrite String_replace_unfold. Qed.

Lemma toSlash_fixed (e : jsstring) :
  ~ In "\"%char e ->
  map (fun c => if Ascii.eqb "\" c then "/"%char else c) e = e.
Proof.
  induction e as [|c e IH]; intros H; [reflexivity|]. cbn [map].
  destruct (Ascii.eqb "\" c) eqn:E.
  - apply Ascii.eqb_eq in E. subst c. exfalso. apply H. now left.
  - rewrite IH; [reflexivity|]. intros Hin. apply H. now right.
Qed.

Lemma toSlash_inv (l e : jsstring) :
  map (fun c => if Ascii.eqb "\" c then "/"%char else c) l = e ->
  ~ In "/"%char e -> l = e.
Proof.
  revert e; induction l as [|c l IH]; intros e E H; cbn [map] in E;
    [exact E|].
  destruct e as [|d e]; [discriminate|].
  destruct (Ascii.eqb "\" c) eqn:Hc; injection E as Ec El.
  - subst d. exfalso. apply H. now left.
  - f_equal; [exact Ec|].
    apply IH; [exact El|]. intros Hin. apply H. now right.
Qed.

Lemma targetExts_plain (ext : jsstring) :
  In ext targetExts -> ~ In "\"%char ext /\ ~ In "/"%char ext.
Proof.
  intros Hin. simpl in Hin.
  repeat (destruct Hin as [<- | Hin];
          [split; simpl; intuition discriminate|]).
  destruct Hin.
Qed.

Lemma containsOneOf_toSlash (p : jsstring) :
  containsOneOf targetExts
                (map (fun c => if Ascii.eqb "\" c then "/"%char else c) p)
  <-> containsOneOf targetExts p.
Proof.
  unfold containsOneOf. split.
  - intros (pre & ext & post & Hin & E).
    apply map_eq_app in E as (l1 & l2 & -> & _ & E).
    apply map_eq_app in E as (l3 & l4 & -> & E & _).
    apply toSlash_inv in E; [|now apply targetExts_plain]. subst l3.
    now exists l1, ext, l4.
  - intros (pre & ext & post & Hin & ->).
    rewrite !map_app, (toSlash_fixed ext) by now apply targetExts_plain.
    eexists _, ext, _. split; [exact Hin | reflexivity].
Qed.

(** X9: with an empty base path, [extractLongRef] gives the same answer
    for a path and for the same path with its backslashes already turned
    into [/]: the two ways of writing the separators are not told
    apart. *)
Theorem extractLongRef_separator_insensitive
        (path : jsstring) (preserveExtension : bool) :
  extractLongRef "" (RegExp_replace_g (Chr "\") path "/") preserveExtension
  = extractLongRef "" path preserveExtension.
Proof.
  assert (Hgate : RegExp_test allExtsRegex (RegExp_replace_g (Chr "\") path "/")
                  = RegExp_test allExtsRegex path).
  { rewrite backslashes_to_slashes.
    pose proof (allExtsRegex_contains path) as H1.
    pose proof (allExtsRegex_contains
                  (map (fun c => if Ascii.eqb "\" c then "/"%char else c) path))
      as H2.
    rewrite containsOneOf_toSlash in H2.
    destruct (RegExp_test allExtsRegex path),
      (RegExp_test allExtsRegex
         (map (fun c => if Ascii.eqb "\" c then "/"%char else c) path));
      try reflexivity.
    - apply H2, H1. reflexivity.
    - symmetry. apply H1, H2. reflexivity. }
  unfold extractLongRef. rewrite Hgate.
  change (js "") with (@nil ascii). rewrite !String_replace_empty.
  assert (Hidem : RegExp_replace_g (Chr "\") (RegExp_replace_g (Chr "\") path "/") "/"
                  = RegExp_replace_g (Chr "\") path "/").
  { rewrite (backslashes_to_slashes (RegExp_replace_g _ _ _)).
    apply toSlash_fixed, backslashes_to_slashes_notin. }
  now rewrite Hidem.
Qed.

Lemma ends_target_ext (ext post : jsstring) (at0 : bool) :
  In ext targetExts -> ends allExtsRegex at0 (ext ++ post) = [length ext].
Proof.
  intros Hin. simpl in Hin.
  repeat (destruct Hin as [<- | Hin]; [reflexivity|]). destruct Hin.
Qed.

Lemma search_first_match (r : regex) (k : nat) (m post : jsstring) :
  (forall at0 s, ends r at0 s = ends r false s) ->
  ends r false (m ++ post) = [k] ->
  forall (pre : jsstring) (at0 : bool),
    (forall pre1 c pre2, pre = pre1 ++ c :: pre2 ->
                         ends r false (c :: pre2 ++ m ++ post) = []) ->
    search r at0 (pre ++ m ++ post) = Some (length pre, k).
Proof.
  intros Hr Hm. induction pre as [|c pre IH]; intros at0 Hfirst.
  - cbn [app length]. destruct (m ++ post) eqn:E; cbn [search];
      rewrite Hr, Hm; reflexivity.
  - cbn [app length search]. rewrite Hr.
    rewrite (Hfirst [] c pre eq_refl).
    rewrite IH; [reflexivity|].
    intros pre1 c' pre2 ->. apply (Hfirst (c :: pre1) c' pre2). reflexivity.
Qed.

(** When the first target extension of [pre ++ ext ++ post] is the
    occurrence of [ext] after [pre], that occurrence, and no other, is
    what [replace] removes. *)
Lemma RegExp_replace_first_ext (pre ext post : jsstring) :
  In ext targetExts ->
  (forall pre' ext' post',
      In ext' targetExts -> pre ++ ext ++ post = pre' ++ ext' ++ post' ->
      length pre <= length pre') ->
  RegExp_replace allExtsRegex (pre ++ ext ++ post) [] = pre ++ post.
Proof.
  intros Hin Hfirst. unfold RegExp_replace.
  rewrite (search_first_match allExtsRegex (length ext) ext post).
  - cbn [app].
    rewrite firstn_app, firstn_all, Nat.sub_diag, firstn_O, app_nil_r.
    rewrite app_assoc, <- length_app, skipn_length_app. reflexivity.
  - intros at0 s. unfold allExtsRegex. now rewrite !ends_Seq_Chr.
  - now apply ends_target_ext.
  - intros pre1 c pre2 ->.
    destruct (ends allExtsRegex false (c :: pre2 ++ ext ++ post)) eqn:E;
      [reflexivity|].
    assert (Hne : ends allExtsRegex false (c :: pre2 ++ ext ++ post) <> [])
      by congruence.
    apply ends_allExtsRegex in Hne as (ext' & Hin' & Hs).
    apply startsWith_iff in Hs as [t Hs].
    specialize (Hfirst pre1 ext' t Hin').
    rewrite <- app_assoc in Hfirst. cbn [app] in Hfirst.
    rewrite Hs in Hfirst. specialize (Hfirst eq_refl).
    rewrite length_app in Hfirst. cbn [length] in Hfirst. lia.
Qed.

(** X10: without [preserveExtension], each parser removes the first
    target extension of the string it works on, and only that one: what
    follows it is kept, a second extension included.  For
    [extractShortRef] that string is the basename; for [extractLongRef]
    it is the path once the base path is taken out of it and its
    backslashes are turned into [/], so that the extension removed need
    not be the first one of the path as it was given. *)
Theorem extract_strips_first_extension
        (basename : jsstring -> jsstring) (pre ext post : jsstring) :
  In ext targetExts ->
  (forall pre' ext' post',
      In ext' targetExts -> pre ++ ext ++ post = pre' ++ ext' ++ post' ->
      length pre <= length pre') ->
  (forall basePath path,
      containsOneOf targetExts path ->
      RegExp_replace_g (Chr "\") (String_replace path basePath "") "/"
      = pre ++ ext ++ post ->
      extractLongRef basePath path false
      = Some {| ref := nth 0 (String_split (trimLeadingSlash (pre ++ post)) "|") [];
                label := nth 1 (String_split (trimLeadingSlash (pre ++ post)) "|") [] |})
  /\ (forall path,
         containsOneOf targetExts path ->
         basename path = pre ++ ext ++ post ->
         extractShortRef basename path false
         = Some {| ref := nth 0 (String_split (trimLeadingSlash (pre ++ post)) "|") [];
                   label := nth 1 (String_split (trimLeadingSlash (pre ++ post)) "|") [] |}).
Proof.
  intros Hin Hfirst. split.
  - intros basePath path Hrec E. apply allExtsRegex_contains in Hrec.
    unfold extractLongRef. rewrite Hrec, E. change (js "") with (@nil ascii).
    now rewrite (RegExp_replace_first_ext pre ext post Hin Hfirst).
  - intros path Hrec E. apply allExtsRegex_contains in Hrec.
    unfold extractShortRef. rewrite Hrec, E. change (js "") with (@nil ascii).
    now rewrite (RegExp_replace_first_ext pre ext post Hin Hfirst).
Qed.

Lemma extract_strips_first_extension_witness :
  extractLongRef "x" "a.pxng.md" false
  = Some {| ref := nth 0 (String_split (trimLeadingSlash (js "a" ++ js ".md")) "|") [];
            label := nth 1 (String_split (trimLeadingSlash (js "a" ++ js ".md")) "|") [] |}
  /\ extractShortRef posix_basename "/n/a.md.png|x" false
     = Some {| ref := nth 0 (String_split (trimLeadingSlash (js "a" ++ js ".png|x")) "|") [];
               label := nth 1 (String_split (trimLeadingSlash (js "a" ++ js ".png|x")) "|") [] |}
  /\ extractLongRef "x" "a.pxng.md" false = Some (mkRef "a.md" "")
  /\ extractLongRef ".md" "a.md.png" false = Some (mkRef "a" "")
  /\ extractLongRef "" "a.md.png|x" false = Some (mkRef "a.png" "x")
  /\ extractShortRef posix_basename "/n/a.md.png|x" false = Some (mkRef "a.png" "x").
Proof.
  assert (Hfirst : forall ext post pre' ext' post',
             In ext' targetExts ->
             js "a" ++ ext ++ post = pre' ++ ext' ++ post' ->
             length (js "a") <= length pre').
  { intros ext post pre' ext' post' Hin E.
    destruct pre' as [|c pre']; [|simpl; lia].
    exfalso. simpl in Hin.
    repeat (destruct Hin as [<- | Hin]; [discriminate E|]). destruct Hin. }
  split; [|split; [|repeat split]].
  - destruct (extract_strips_first_extension posix_basename "a" ".png" ".md")
      as [Hlong _].
    + simpl. tauto.
    + apply Hfirst.
    + apply Hlong; [|reflexivity].
      exists (js "a.pxng"), (js ".md"), (js "").
      split; [now left | reflexivity].
  - destruct (extract_strips_first_extension posix_basename "a" ".md" ".png|x")
      as [_ Hshort].
    + now left.
    + apply Hfirst.
    + apply Hshort; [|reflexivity].
      exists (js "/n/a"), (js ".md"), (js ".png|x").
      split; [now left | reflexivity].
Defined.

(** ** Reference under the cursor *)

Lemma String_replace_absent (s pat repl : jsstring) (c : ascii) :
  In c pat -> ~ In c s -> String_replace s pat repl = s.
Proof.
  intros Hpat. induction s as [|x s IH]; intros Hs;
    rewrite String_replace_unfold.
  - destruct (startsWith pat []) eqn:E; [|reflexivity].
    apply startsWith_iff in E as [t E]. destruct pat; [destruct Hpat | discriminate].
  - destruct (startsWith pat (x :: s)) eqn:E.
    + apply startsWith_iff in E as [t E]. exfalso. apply Hs. rewrite E.
      apply in_or_app. now left.
    + f_equal. apply IH. intros Hin. apply Hs. now right.
Qed.

Lemma app_first_char {A : Type} (c : A) (l1 a l2 b : list A) :
  ~ In c l1 -> l1 ++ a = l2 ++ c :: b -> length l1 <= length l2.
Proof.
  revert l2; induction l1 as [|x l1 IH]; intros l2 Hnotin E; [simpl; lia|].
  destruct l2 as [|y l2]; cbn [app] in E.
  - injection E as -> _. exfalso. apply Hnotin. now left.
  - injection E as _ E. cbn [length]. apply le_n_S.
    apply IH; [|exact E]. intros Hin. apply Hnotin. now right.
Qed.

(** X11: on the text of a matched range, two opening brackets, an inner
    text without brackets and two closing brackets,
    [getReferenceAtPosition] returns the range together with the part of
    the inner text that stands before its first [|]: the brackets and
    the label are dropped. *)
Theorem getReferenceAtPosition_bracketed
        (document : TextDocumentView) (position : Position)
        (range0 : Position * Position) (inner : jsstring) :
  getWordRangeAtPosition document position refPattern = Some range0 ->
  getText document range0 = js "[[" ++ inner ++ js "]]" ->
  ~ In "["%char inner -> ~ In "]"%char inner ->
  exists ref0,
    getReferenceAtPosition document position = Some (ref0, range0)
    /\ ~ In "|"%char ref0
    /\ (inner = ref0 \/ exists label0, inner = ref0 ++ "|"%char :: label0).
Proof.
  intros Hrange Htext Hopen Hclose.
  unfold getReferenceAtPosition. rewrite Hrange, Htext.
  assert (E1 : String_replace (js "[[" ++ inner ++ js "]]") "![[" ""
               = js "[[" ++ inner ++ js "]]").
  { cbn [js list_ascii_of_string app String_replace startsWith Ascii.eqb
           Bool.eqb andb].
    rewrite (String_replace_absent _ _ _ "["%char); [reflexivity | | ].
    - simpl. tauto.
    - intros Hin. apply in_app_or in Hin as [Hin | Hin]; [contradiction|].
      simpl in Hin. intuition discriminate. }
  assert (E2 : String_replace (js "[[" ++ inner ++ js "]]") "[[" ""
               = inner ++ js "]]") by reflexivity.
  assert (E3 : String_replace (inner ++ js "]]") "]]" "" = inner).
  { pose proof (String_replace_first (js "]]") inner [] (js "")) as H.
    cbn [js list_ascii_of_string app] in *. rewrite !app_nil_r in H.
    apply H. intros pre' post' E.
    apply (app_first_char "]"%char inner _ pre' _ Hclose E). }
  rewrite E1, E2, E3.
  eexists. split; [reflexivity|].
  destruct (String_split_segments inner) as [(H & -> & _) | (H & _ & [E | [rest E]])].
  - split; [exact H | now left].
  - split; [exact H | right; eexists; exact E].
  - split; [exact H | right; eexists; exact E].
Qed.

Lemma getReferenceAtPosition_bracketed_witness :
  exists ref0,
    getReferenceAtPosition Cursor.document {| line := 0; character := 10 |}
    = Some (ref0, Cursor.linkRange)
    /\ ~ In "|"%char ref0
    /\ (js "target|Alt" = ref0
        \/ exists label0, js "target|Alt" = ref0 ++ "|"%char :: label0).
Proof.
  apply (getReferenceAtPosition_bracketed
           Cursor.document {| line := 0; character := 10 |}
           Cursor.linkRange "target|Alt").
  - reflexivity.
  - reflexivity.
  - intros H. cbn in H. repeat (destruct H as [H | H]; [discriminate H|]).
    destruct H.
  - intros H. cbn in H. repeat (destruct H as [H | H]; [discriminate H|]).
    destruct H.
Defined.

(** ** More on the reference locator *)

Section LocatorExtras.

Variable env : Capabilities.

Lemma matchAll_loop_stuck (pattern : RegExp env) (text : jsstring)
      (i : nat) (m : RegExpMatchArray) :
  RegExp_exec env pattern text i = (Some m, i) ->
  forall fuel out, matchAll_loop env fuel pattern text i out = OutOfFuel.
Proof.
  intros H. induction fuel as [|fuel IH]; intros out; [reflexivity|].
  cbn [matchAll_loop]. rewrite H. apply IH.
Qed.

(** X12: [matchAll] does not come back from a pattern that matches the
    empty string where the search starts: [exec] leaves [lastIndex]
    where it was, the loop asks the same question again, and no bound
    on its iterations is enough.  [findReferences] then never returns
    once it scans a file on which this happens. *)
Theorem matchAll_loops_on_empty_match
        (pattern : RegExp env) (text : jsstring) (m : RegExpMatchArray) :
  RegExp_exec env pattern text 0 = (Some m, 0) ->
  (forall fuel, matchAll env fuel pattern text = OutOfFuel)
  /\ (forall fuel images fsPath rest ref excludePaths,
         ~ In fsPath excludePaths ->
         readFileSync env fsPath = Some text ->
         RegExp_new env (refRegExpSource ref) = Some pattern ->
         findReferences env fuel
           {| imageUris := images; markdownUris := fsPath :: rest |}
           ref excludePaths = OutOfFuel).
Proof.
  intros H. split.
  - intros fuel. now apply matchAll_loop_stuck with (m := m).
  - intros fuel images fsPath rest ref excludePaths Hnotex Hread Hnew.
    unfold findReferences. cbn [markdownUris scan].
    destruct (includes excludePaths fsPath) eqn:Hex.
    + apply includes_In in Hex. contradiction.
    + unfold scanFile. rewrite Hread, Hnew. cbn [orThrow bind].
      unfold matchAll. now rewrite (matchAll_loop_stuck _ _ _ _ H).
Qed.

Lemma matchAll_loop_progress (pattern : RegExp env) (text : jsstring) :
  (forall i m j, RegExp_exec env pattern text i = (Some m, j) ->
                 i < j <= length text) ->
  forall fuel i out,
    length text - i < fuel ->
    exists ms, matchAll_loop env fuel pattern text i out = Returns (out ++ ms)
               /\ length ms <= length text - i.
Proof.
  intros Hprog. induction fuel as [|fuel IH]; intros i out Hfuel; [lia|].
  cbn [matchAll_loop].
  destruct (RegExp_exec env pattern text i) as [[m|] j] eqn:E.
  - destruct (Hprog _ _ _ E) as [Hlt Hle].
    destruct (IH j (out ++ [m])) as (ms & Hms & Hlen); [lia|].
    exists (m :: ms). rewrite Hms, <- app_assoc. split; [reflexivity|].
    cbn [length]. lia.
  - exists []. rewrite app_nil_r. split; [reflexivity | simpl; lia].
Qed.

(** X13: when every match makes [lastIndex] advance, and leaves it
    within the text, [matchAll] returns: one more iteration than the
    text has characters is enough, and there are at most as many
    matches as characters. *)
Theorem matchAll_terminates
        (pattern : RegExp env) (text : jsstring) (fuel : nat) :
  (forall i m j, RegExp_exec env pattern text i = (Some m, j) ->
                 i < j <= length text) ->
  length text < fuel ->
  exists ms, matchAll env fuel pattern text = Returns ms
             /\ length ms <= length text.
Proof.
  intros Hprog Hfuel.
  destruct (matchAll_loop_progress pattern text Hprog fuel 0 []) as (ms & H & Hlen);
    [lia|].
  exists ms. split; [exact H | lia].
Qed.

Lemma scan_exclude_filter (fuel : nat) (ref : jsstring)
      (excludePaths : list jsstring) :
  forall uris refs0,
    scan env fuel ref excludePaths uris refs0
    = scan env fuel ref []
           (filter (fun p => negb (includes excludePaths p)) uris) refs0.
Proof.
  induction uris as [|fsPath uris IH]; intros refs0; [reflexivity|].
  cbn [scan filter]. destruct (includes excludePaths fsPath); cbn [negb].
  - apply IH.
  - cbn [scan includes existsb]. destruct (scanFile env fuel ref fsPath refs0);
      cbn [bind]; [apply IH | reflexivity..].
Qed.

(** X14: excluding paths is the same as taking them out of the cache:
    [findReferences] with [excludePaths] answers what it answers, with
    nothing excluded, on the cache without the excluded files.  An
    excluded file is neither read nor opened. *)
Theorem findReferences_exclude_is_filter
        (fuel : nat) (workspaceCache : WorkspaceCache) (ref : jsstring)
        (excludePaths : list jsstring) :
  findReferences env fuel workspaceCache ref excludePaths
  = findReferences env fuel
      {| imageUris := imageUris workspaceCache;
         markdownUris := filter (fun p => negb (includes excludePaths p))
                                (markdownUris workspaceCache) |}
      ref [].
Proof. apply scan_exclude_filter. Qed.

Lemma forEach_acc (fsPath : jsstring) (doc : TextDocument env) :
  forall matches refs0,
    forEach env fsPath doc matches refs0
    = bind (forEach env fsPath doc matches [])
           (fun refs => Returns (refs0 ++ refs)).
Proof.
  induction matches as [|m matches IH]; intros refs0; cbn [forEach bind].
  - now rewrite app_nil_r.
  - unfold pushMatch. destruct (group1 m) as [g1|]; cbn [orThrow bind];
      [|reflexivity].
    rewrite IH. rewrite (IH ([] ++ _)).
    destruct (forEach env fsPath doc matches []); cbn [bind];
      [|reflexivity..].
    now rewrite <- app_assoc.
Qed.

Lemma scanFile_acc (fuel : nat) (ref fsPath : jsstring) (refs0 : list FoundRefT) :
  scanFile env fuel ref fsPath refs0
  = bind (scanFile env fuel ref fsPath [])
         (fun refs => Returns (refs0 ++ refs)).
Proof.
  unfold scanFile.
  destruct (readFileSync env fsPath) as [content|]; cbn [orThrow bind];
    [|reflexivity].
  destruct (RegExp_new env (refRegExpSource ref)) as [pattern|];
    cbn [orThrow bind]; [|reflexivity].
  destruct (matchAll env fuel pattern content) as [[|m matches]| |];
    cbn [bind]; [now rewrite app_nil_r | | reflexivity..].
  destruct (openTextDocument env fsPath) as [doc|]; cbn [orThrow bind];
    [|reflexivity].
  apply forEach_acc.
Qed.

Lemma scan_acc (fuel : nat) (ref : jsstring) (excludePaths : list jsstring) :
  forall uris refs0,
    scan env fuel ref excludePaths uris refs0
    = bind (scan env fuel ref excludePaths uris [])
           (fun refs => Returns (refs0 ++ refs)).
Proof.
  induction uris as [|fsPath uris IH]; intros refs0; cbn [scan bind].
  - now rewrite app_nil_r.
  - destruct (includes excludePaths fsPath); [apply IH|].
    rewrite scanFile_acc.
    destruct (scanFile env fuel ref fsPath []) as [refs1| |]; cbn [bind];
      [|reflexivity..].
    rewrite (IH (refs0 ++ refs1)), (IH refs1).
    destruct (scan env fuel ref excludePaths uris []); cbn [bind];
      [|reflexivity..].
    now rewrite app_assoc.
Qed.

(** X15: the hits follow the order of the cache, file by file: on a
    cache made of two parts, [findReferences] answers the hits of the
    first part followed by those of the second, and it fails as the
    first part does, or else as the second does, when one of them
    fails. *)
Theorem findReferences_app
        (fuel : nat) (images uris1 uris2 : list jsstring) (ref : jsstring)
        (excludePaths : list jsstring) :
  findReferences env fuel
    {| imageUris := images; markdownUris := uris1 ++ uris2 |} ref excludePaths
  = bind (findReferences env fuel
            {| imageUris := images; markdownUris := uris1 |} ref excludePaths)
         (fun refs1 =>
            bind (findReferences env fuel
                    {| imageUris := images; markdownUris := uris2 |}
                    ref excludePaths)
                 (fun refs2 => Returns (refs1 ++ refs2))).
Proof.
  unfold findReferences. cbn [markdownUris]. rewrite scan_app.
  destruct (scan env fuel ref excludePaths uris1 []) as [refs1| |];
    cbn [bind]; [|reflexivity..].
  apply scan_acc.
Qed.

Lemma scan_all_excluded (fuel : nat) (ref : jsstring)
      (excludePaths : list jsstring) :
  forall uris refs0,
    (forall fsPath, In fsPath uris -> In fsPath excludePaths) ->
    scan env fuel ref excludePaths uris refs0 = Returns refs0.
Proof.
  induction uris as [|p uris IH]; intros refs0 H; [reflexivity|].
  cbn [scan].
  assert (Hp : includes excludePaths p = true)
    by (apply includes_In, H; now left).
  rewrite Hp. apply IH. intros q Hq. apply H. now right.
Qed.

Lemma scan_syntax_error (fuel : nat) (ref : jsstring)
      (excludePaths : list jsstring) :
  RegExp_new env (refRegExpSource ref) = None ->
  forall uris refs0,
    (forall fsPath, In fsPath uris -> ~ In fsPath excludePaths ->
                    readFileSync env fsPath <> None) ->
    (exists fsPath, In fsPath uris /\ ~ In fsPath excludePaths) ->
    scan env fuel ref excludePaths uris refs0
    = Throws (SyntaxError (refRegExpSource ref)).
Proof.
  intros Hnew. induction uris as [|p uris IH]; intros refs0 Hread Hex.
  - destruct Hex as (q & [] & _).
  - cbn [scan]. destruct (includes excludePaths p) eqn:Hp.
    + apply includes_In in Hp. apply IH.
      * intros q Hq. apply Hread. now right.
      * destruct Hex as (q & [-> | Hq] & Hnot); [contradiction|].
        now exists q.
    + assert (Hnot : ~ In p excludePaths).
      { intros Hin. apply includes_In in Hin. congruence. }
      unfold scanFile.
      destruct (readFileSync env p) as [content|] eqn:E.
      * cbn [orThrow bind]. now rewrite Hnew.
      * exfalso. apply (Hread p); [now left | exact Hnot | exact E].
Qed.

(** X17: the pattern is built inside the loop, after the file is read.
    When every cached file is excluded, as when the cache is empty, the
    answer is the empty list whatever [ref] is; a [ref] whose pattern
    does not parse makes the call throw the syntax error as soon as a
    file, which can be read, is scanned. *)
Theorem findReferences_malformed_ref
        (fuel : nat) (workspaceCache : WorkspaceCache) (ref : jsstring)
        (excludePaths : list jsstring) :
  ((forall fsPath, In fsPath (markdownUris workspaceCache) ->
                   In fsPath excludePaths) ->
   findReferences env fuel workspaceCache ref excludePaths = Returns [])
  /\ (RegExp_new env (refRegExpSource ref) = None ->
      (forall fsPath, In fsPath (markdownUris workspaceCache) ->
                      ~ In fsPath excludePaths ->
                      readFileSync env fsPath <> None) ->
      (exists fsPath, In fsPath (markdownUris workspaceCache)
                      /\ ~ In fsPath excludePaths) ->
      findReferences env fuel workspaceCache ref excludePaths
      = Throws (SyntaxError (refRegExpSource ref))).
Proof.
  split.
  - apply scan_all_excluded.
  - intros Hnew. now apply scan_syntax_error.
Qed.

Lemma forEach_TypeError (fsPath : jsstring) (doc : TextDocument env)
      (m : RegExpMatchArray) :
  group1 m = None ->
  forall matches refs0,
    In m matches ->
    forEach env fsPath doc matches refs0 = Throws TypeError.
Proof.
  intros Hm. induction matches as [|m' matches IH]; intros refs0 Hin;
    [destruct Hin|].
  cbn [forEach]. unfold pushMatch.
  destruct (group1 m') as [g1|] eqn:E; cbn [orThrow bind]; [|reflexivity].
  destruct Hin as [-> | Hin]; [congruence | now apply IH].
Qed.

(** X18: a match whose first group took no part, which a [ref] with a
    [|] outside any group of its own can produce, makes the call throw a
    type error when the length of the group is read: the hits of the
    file and of the files before it are lost. *)
Theorem findReferences_undefined_group
        (fuel : nat) (images rest : list jsstring) (ref fsPath : jsstring)
        (excludePaths : list jsstring) (content : jsstring)
        (pattern : RegExp env) (doc : TextDocument env)
        (matches : list RegExpMatchArray) (m : RegExpMatchArray) :
  ~ In fsPath excludePaths ->
  readFileSync env fsPath = Some content ->
  RegExp_new env (refRegExpSource ref) = Some pattern ->
  matchAll env fuel pattern content = Returns matches ->
  In m matches -> group1 m = None ->
  openTextDocument env fsPath = Some doc ->
  findReferences env fuel
    {| imageUris := images; markdownUris := fsPath :: rest |}
    ref excludePaths = Throws TypeError.
Proof.
  intros Hnotex Hread Hnew Hall Hin Hm Hopen.
  unfold findReferences. cbn [markdownUris scan].
  destruct (includes excludePaths fsPath) eqn:Hex.
  - apply includes_In in Hex. contradiction.
  - unfold scanFile. rewrite Hread, Hnew. cbn [orThrow bind].
    rewrite Hall. cbn [bind].
    destruct matches as [|m0 matches]; [destruct Hin|].
    rewrite Hopen. cbn [orThrow bind].
    now rewrite (forEach_TypeError fsPath doc m Hm).
Qed.

Lemma scan_uri_cached (fuel : nat) (ref : jsstring)
      (excludePaths : list jsstring) :
  forall uris refs0 refs,
    scan env fuel ref excludePaths uris refs0 = Returns refs ->
    forall r, In r refs -> In r refs0 \/ In (uri (location r)) uris.
Proof.
  induction uris as [|fsPath uris IH]; intros refs0 refs H r Hr;
    cbn [scan] in H.
  - injection H as <-. now left.
  - destruct (includes excludePaths fsPath).
    + destruct (IH _ _ H r Hr) as [Hin | Hin]; [now left | right; now right].
    + apply bind_Returns in H as (refs1 & Hfile & Hrest).
      destruct (IH _ _ Hrest r Hr) as [Hin | Hin]; [|right; now right].
      destruct (scanFile_uri _ _ _ _ _ _ Hfile r Hin) as [Hin0 | Huri];
        [now left | right; left; now symmetry].
Qed.

(** X19: every hit that [findReferences] returns is located in one of
    the cached markdown files; the cached image files are never
    scanned. *)
Theorem findReferences_hits_in_cache
        (fuel : nat) (workspaceCache : WorkspaceCache) (ref : jsstring)
        (excludePaths : list jsstring) (refs : list FoundRefT) :
  findReferences env fuel workspaceCache ref excludePaths = Returns refs ->
  forall r, In r refs -> In (uri (location r)) (markdownUris workspaceCache).
Proof.
  intros H r Hr.
  destruct (scan_uri_cached _ _ _ _ _ _ H r Hr) as [[] | Hin]. exact Hin.
Qed.

End LocatorExtras.

Lemma matchAll_loops_on_empty_match_witness :
  (forall fuel,
      matchAll OddRefs.env fuel OddRefs.EmptyAlternative OddRefs.fileText
      = OutOfFuel)
  /\ (forall fuel,
         findReferences OddRefs.env fuel
           {| imageUris := []; markdownUris := [OddRefs.file] |}
           OddRefs.emptyRef [] = OutOfFuel).
Proof.
  destruct (matchAll_loops_on_empty_match
              OddRefs.env OddRefs.EmptyAlternative OddRefs.fileText
              {| index := 0; group1 := None |} eq_refl) as [H1 H2].
  split; [exact H1|].
  intros fuel. apply H2; [intros [] | reflexivity | reflexivity].
Defined.

Lemma matchAll_terminates_witness :
  exists ms, matchAll Fixture.env 40 tt Fixture.noteText = Returns ms
             /\ length ms <= length Fixture.noteText.
Proof.
  apply (matchAll_terminates Fixture.env tt Fixture.noteText 40).
  - intros i m j H. cbn in H.
    destruct (i <=? 4) eqn:E4.
    + injection H as _ <-. apply Nat.leb_le in E4. cbn. lia.
    + destruct (i <=? 19) eqn:E19; [|discriminate].
      injection H as _ <-. apply Nat.leb_le in E19. cbn. lia.
  - cbn. lia.
Defined.

Lemma findReferences_malformed_ref_witness :
  findReferences OddRefs.env 1
    {| imageUris := []; markdownUris := [OddRefs.file] |}
    OddRefs.badRef [OddRefs.file] = Returns []
  /\ findReferences OddRefs.env 1
       {| imageUris := []; markdownUris := [OddRefs.file] |}
       OddRefs.badRef []
     = Throws (SyntaxError (refRegExpSource OddRefs.badRef)).
Proof.
  split.
  - apply (findReferences_malformed_ref OddRefs.env 1
             {| imageUris := []; markdownUris := [OddRefs.file] |}
             OddRefs.badRef [OddRefs.file]).
    intros p [<- | []]. now left.
  - apply (findReferences_malformed_ref OddRefs.env 1
             {| imageUris := []; markdownUris := [OddRefs.file] |}
             OddRefs.badRef []).
    + reflexivity.
    + intros p [<- | []] _. discriminate.
    + exists OddRefs.file. split; [now left | intros []].
Defined.

Lemma findReferences_undefined_group_witness :
  findReferences OddRefs.env 2
    {| imageUris := []; markdownUris := [OddRefs.brackets; OddRefs.file] |}
    OddRefs.splitRef [] = Throws TypeError.
Proof.
  apply (findReferences_undefined_group
           OddRefs.env 2 [] [OddRefs.file] OddRefs.splitRef OddRefs.brackets []
           OddRefs.bracketsText OddRefs.SplitGroup OddRefs.bracketsText
           [{| index := 0; group1 := None |}] {| index := 0; group1 := None |}).
  - intros [].
  - reflexivity.
  - reflexivity.
  - reflexivity.
  - now left.
  - reflexivity.
  - reflexivity.
Defined.

Lemma findReferences_hits_in_cache_witness :
  Forall (fun r => In (uri (location r)) (markdownUris Fixture.workspaceCache))
         [ {| location := {| uri := Fixture.note;
                             range := ({| line := 0; character := 6 |},
                                       {| line := 0; character := 12 |}) |};
              matchText := skipn 4 Fixture.noteText |};
           {| location := {| uri := Fixture.note;
                             range := ({| line := 0; character := 21 |},
                                       {| line := 0; character := 31 |}) |};
              matchText := skipn 19 Fixture.noteText |} ].
Proof.
  apply Forall_forall.
  apply (findReferences_hits_in_cache Fixture.env 3 Fixture.workspaceCache
                                      "target" []).
  reflexivity.
Defined.
